(** * eazure: table helpers (src/eazure/tables.py)

    A shallow embedding of the table module of eazure: the key assignment
    on dataframes, the batched writer and deleter, and the schema
    rewriting operations, run against a model of the external table
    service. *)

From stdpp Require Import base option list gmap strings.
From Stdlib Require Import ZArith Lia Ascii.

(** ** Python values and entities *)

(** The scalar values that occur in dataframe cells and entity properties.
    [VNaN] is what pandas puts in a cell that has no value; [VTime] is the
    value of the [Timestamp] property the table service maintains. *)
Inductive value : Type :=
  | VStr (s : string)
  | VInt (z : Z)
  | VNaN
  | VTime (n : nat).

#[global] Instance value_eq_dec : EqDecision value.
Proof. solve_decision. Defined.

(** [class Entity(dict)]: an open mapping from column name to value. *)
Abbreviation Entity := (gmap string value).

(** ** Decimal strings: [str(int)], [str.zfill], string order *)

Module PyStr.

Definition digit (d : nat) : ascii := ascii_of_nat (48 + d).

(** [str(n)] for a non-negative integer: the decimal digits, most
    significant first, without leading zeros.  The fuel only bounds the
    recursion; [S n] digits are always enough. *)
Fixpoint str_go (fuel n : nat) (acc : string) : string :=
  match fuel with
  | O => acc
  | S fuel' =>
      let acc' := String (digit (n mod 10)) acc in
      if Nat.eqb (n / 10) 0 then acc' else str_go fuel' (n / 10) acc'
  end.

Definition str_nat (n : nat) : string := str_go (S n) n "".

Definition str_int (z : Z) : string :=
  if (z <? 0)%Z then "-" +:+ str_nat (Z.to_nat (- z)) else str_nat (Z.to_nat z).

Fixpoint zeros (k : nat) : string :=
  match k with
  | O => ""
  | S k' => String "0"%char (zeros k')
  end.

(** [s.zfill(width)] on a string without sign: pad with '0' on the left. *)
Definition zfill (width : nat) (s : string) : string :=
  zeros (width - String.length s) +:+ s.

(** Python compares strings by code point, position by position. *)
Definition str_lt (a b : string) : Prop := String.compare a b = Lt.

(** The [w] low decimal digits of [n], most significant first. *)
Fixpoint fixed (w n : nat) : string :=
  match w with
  | O => ""
  | S w' => fixed w' (n / 10) +:+ String (digit (n mod 10)) ""
  end.

End PyStr.

(** ** Dataframes *)

Module Pandas.

(** A dataframe: its column labels and its rows.  A row is stored as a
    mapping; the cell of a row at a column the row has no entry for is
    [VNaN], which is how [pd.DataFrame(list_of_dicts)] fills the frame. *)
Record DataFrame : Type := mkDF {
  columns : list string;
  records : list (gmap string value)
}.

Definition len (df : DataFrame) : nat := length (records df).

Definition cell (r : gmap string value) (c : string) : value :=
  default VNaN (r !! c).

(** [pd.DataFrame(entities)]: the columns are the keys of the dictionaries
    in order of first appearance. *)
Definition union_keys (acc : list string) (r : gmap string value) : list string :=
  foldl (fun a k => if decide (k ∈ a) then a else a ++ [k]) acc (map fst (map_to_list r)).

Definition from_records (l : list (gmap string value)) : DataFrame :=
  {| columns := foldl union_keys [] l; records := l |}.

(** [df.to_dict("records")]: one dictionary per row, each with every
    column of the frame as a key. *)
Definition row_dict (cols : list string) (r : gmap string value) : gmap string value :=
  list_to_map (map (fun c => (c, cell r c)) cols).

Definition to_dict_records (df : DataFrame) : list (gmap string value) :=
  map (row_dict (columns df)) (records df).

(** [df[c]]: the column as a list of cells; [None] stands for KeyError. *)
Definition getitem (df : DataFrame) (c : string) : option (list value) :=
  if decide (c ∈ columns df) then Some (map (fun r => cell r c) (records df))
  else None.

(** [df[c] = series]: overwrite or append the column. *)
Definition setitem (df : DataFrame) (c : string) (vs : list value) : DataFrame :=
  {| columns := if decide (c ∈ columns df) then columns df else columns df ++ [c];
     records := zip_with (fun r v => <[c := v]> r) (records df) vs |}.

(** [df.drop(columns=[c], inplace=True)]; [None] stands for KeyError. *)
Definition drop_column (df : DataFrame) (c : string) : option DataFrame :=
  if decide (c ∈ columns df)
  then Some {| columns := filter (fun c' => c' ≠ c) (columns df);
               records := map (delete c) (records df) |}
  else None.

(** [np.arange(n)] *)
Definition arange (n : nat) : list value := map (fun i => VInt (Z.of_nat i)) (seq 0 n).

(** [series.astype(str)], cell by cell *)
Definition astype_str (v : value) : value :=
  match v with
  | VStr s => VStr s
  | VInt z => VStr (PyStr.str_int z)
  | VNaN => VStr "nan"
  | VTime n => VStr (PyStr.str_nat n)
  end.

(** [series.str.zfill(width)], cell by cell; a cell that is not a string
    becomes NaN. *)
Definition str_zfill (width : nat) (v : value) : value :=
  match v with
  | VStr s => VStr (PyStr.zfill width s)
  | _ => VNaN
  end.

(** [a + b] on cells: string concatenation and integer addition; the
    other combinations do not occur on the columns built here and are
    mapped to NaN. *)
Definition add (a b : value) : value :=
  match a, b with
  | VStr s, VStr t => VStr (s +:+ t)
  | VInt x, VInt y => VInt (x + y)
  | _, _ => VNaN
  end.

End Pandas.

Import Pandas.

(** ** Key assignment (tables.py, add_keys_to_df) *)

Definition add_keys_to_df (df : DataFrame) (partition_key : string) : option DataFrame :=
  let max_digits := String.length (PyStr.str_nat (len df)) in
  let df := setitem df "PartitionKey" (replicate (len df) (VStr partition_key)) in
  let df := setitem df "RowKey" (arange (len df)) in
  RowKey ← getitem df "RowKey";
  let df := setitem df "RowKey" (map (str_zfill max_digits) (map astype_str RowKey)) in
  PartitionKey ← getitem df "PartitionKey";
  RowKey ← getitem df "RowKey";
  let df := setitem df "RowKey"
              (zip_with add (map (fun p => add p (VStr "-")) PartitionKey) RowKey) in
  Some df.

(** The key of the row at position [i] of a frame of [n] rows: the
    partition value, a dash, and [i] zero-padded to the width of [str(n)]. *)
Definition row_key (partition_key : string) (n i : nat) : string :=
  partition_key +:+ "-" +:+ PyStr.zfill (String.length (PyStr.str_nat n)) (PyStr.str_nat i).

(** ** The table service

    The Azure table service is an external collaborator; the repository
    only calls it.  Its model follows the contract the specification
    gives for the entity store. *)

Module Service.

(** One operation of a [TableBatch]. *)
Inductive BatchOp : Type :=
  | OpInsert (entity : Entity)
  | OpDelete (partition_key row_key : value).

#[global] Instance BatchOp_eq_dec : EqDecision BatchOp.
Proof. solve_decision. Defined.

Abbreviation TableBatch := (list BatchOp).
Abbreviation Table := (gmap (string * string) Entity).

(** The store: its tables, each a map from (PartitionKey, RowKey) to the
    stored entity, and the clock that the service stamps entities with. *)
Record Store : Type := mkStore {
  tables : gmap string (gmap (string * string) Entity);
  clock : nat
}.

(** The calls the service has completed, in the order they were made. *)
Inductive Call : Type :=
  | CExists (table_name : string)
  | CCreateTable (table_name : string)
  | CDeleteTable (table_name : string)
  | CQuery (table_name : string)
  | CInsert (table_name : string) (entity : Entity)
  | CUpdate (table_name : string) (entity : Entity)
  | CCommit (table_name : string) (batch : list BatchOp).

Inductive Error : Type :=
  | KeyError (key : string)
  | TableNotFound (table_name : string)
  | InvalidEntity
  | EntityAlreadyExists (key : string * string)
  | EntityNotFound (key : string * string)
  | BatchConstraintViolation (batch : list BatchOp).

Inductive Res (A : Type) : Type :=
  | Ok (a : A)
  | Raise (e : Error).
Arguments Ok {A} a.
Arguments Raise {A} e.

(** A computation against the store: its result or the exception it
    raised, the store it leaves, and the calls it completed.  An exception
    leaves the store as the completed calls made it. *)
Definition M (A : Type) : Type := Store → Res A * Store * list Call.

Definition ret {A} (a : A) : M A := λ s, (Ok a, s, []).
Definition raise {A} (e : Error) : M A := λ s, (Raise e, s, []).
Definition bind {A B} (m : M A) (k : A → M B) : M B := λ s,
  match m s with
  | (Ok a, s1, l1) => let '(r, s2, l2) := k a s1 in (r, s2, l1 ++ l2)
  | (Raise e, s1, l1) => (Raise e, s1, l1)
  end.

Declare Scope M_scope.
Delimit Scope M_scope with M.
Bind Scope M_scope with M.
Notation "x ← y ; z" := (bind y (λ x : _, z))
  (at level 20, y at level 100, z at level 200, only parsing) : M_scope.
Notation "' x ← y ; z" := (bind y (λ x : _, z))
  (at level 20, x pattern, y at level 100, z at level 200, only parsing) : M_scope.
Notation "x ;; z" := (bind x (λ _, z))
  (at level 100, z at level 200, only parsing, right associativity) : M_scope.

Definition result {A} (x : Res A * Store * list Call) : Res A := x.1.1.
Definition final {A} (x : Res A * Store * list Call) : Store := x.1.2.
Definition calls {A} (x : Res A * Store * list Call) : list Call := x.2.

(** Modelled from the spec: the entity store's key. An entity is
    addressed by its [PartitionKey] and [RowKey], both strings. *)
Definition key_of (e : Entity) : option (string * string) :=
  match e !! "PartitionKey", e !! "RowKey" with
  | Some (VStr pk), Some (VStr rk) => Some (pk, rk)
  | _, _ => None
  end.

(** Modelled from the spec: the store-managed timestamp field, set by the
    service on every write whatever the entity carried. *)
Definition stamp (now : nat) (e : Entity) : Entity := <["Timestamp" := VTime now]> e.

(** Modelled from the spec: [insertEntity] on one table. *)
Definition put_new (now : nat) (tb : gmap (string * string) Entity) (e : Entity)
    : Res (gmap (string * string) Entity) :=
  match key_of e with
  | None => Raise InvalidEntity
  | Some k =>
      match tb !! k with
      | Some _ => Raise (EntityAlreadyExists k)
      | None => Ok (<[k := stamp now e]> tb)
      end
  end.

(** Modelled from the spec: [updateEntity] on one table, a full replace
    of the entity that has the keys of [e]. *)
Definition put_existing (now : nat) (tb : gmap (string * string) Entity) (e : Entity)
    : Res (gmap (string * string) Entity) :=
  match key_of e with
  | None => Raise InvalidEntity
  | Some k =>
      match tb !! k with
      | Some _ => Ok (<[k := stamp now e]> tb)
      | None => Raise (EntityNotFound k)
      end
  end.

(** Modelled from the spec: the delete operation of a batch on one table. *)
Definition remove (tb : gmap (string * string) Entity) (pk rk : value)
    : Res (gmap (string * string) Entity) :=
  match pk, rk with
  | VStr p, VStr r =>
      match tb !! (p, r) with
      | Some _ => Ok (delete (p, r) tb)
      | None => Raise (EntityNotFound (p, r))
      end
  | _, _ => Raise InvalidEntity
  end.

Definition op_partition (op : BatchOp) : option value :=
  match op with
  | OpInsert e => e !! "PartitionKey"
  | OpDelete pk _ => Some pk
  end.

(** Modelled from the spec: a batch holds at most 100 operations, all on
    one partition key. *)
Definition batch_valid (b : list BatchOp) : bool :=
  (length b <=? 100) &&
  match b with
  | [] => true
  | op :: rest => forallb (λ op', bool_decide (op_partition op' = op_partition op)) rest
  end.

(** The operations of a batch, applied in order; the first that fails
    fails the batch. *)
Fixpoint apply_ops (now : nat) (tb : gmap (string * string) Entity) (b : list BatchOp)
    : Res (gmap (string * string) Entity * nat) :=
  match b with
  | [] => Ok (tb, now)
  | OpInsert e :: rest =>
      match put_new now tb e with
      | Ok tb' => apply_ops (S now) tb' rest
      | Raise err => Raise err
      end
  | OpDelete pk rk :: rest =>
      match remove tb pk rk with
      | Ok tb' => apply_ops now tb' rest
      | Raise err => Raise err
      end
  end.

(** Modelled from the spec: [exists(tableName)]. *)
Definition exists_ (t : string) : M bool := λ s,
  (Ok (bool_decide (is_Some (tables s !! t))), s, [CExists t]).

(** Modelled from the spec: [createTable(tableName)]; a table that is
    already there is left as it is. *)
Definition create_table (t : string) : M unit := λ s,
  match tables s !! t with
  | Some _ => (Ok tt, s, [CCreateTable t])
  | None => (Ok tt, {| tables := <[t := ∅]> (tables s); clock := clock s |}, [CCreateTable t])
  end.

(** Modelled from the spec: [deleteTable(tableName)], no error if absent. *)
Definition delete_table (t : string) : M unit := λ s,
  (Ok tt, {| tables := delete t (tables s); clock := clock s |}, [CDeleteTable t]).

(** Modelled from the spec: [scanEntities(tableName)] without a filter:
    every entity of the table, as stored. *)
Definition query_entities (t : string) : M (list Entity) := λ s,
  match tables s !! t with
  | Some tb => (Ok (map snd (map_to_list tb)), s, [CQuery t])
  | None => (Raise (TableNotFound t), s, [])
  end.

(** A write to one table of the store. *)
Definition on_table (t : string) (c : Call)
    (f : nat → gmap (string * string) Entity → Res (gmap (string * string) Entity * nat))
    : M unit := λ s,
  match tables s !! t with
  | None => (Raise (TableNotFound t), s, [])
  | Some tb =>
      match f (clock s) tb with
      | Ok (tb', now') => (Ok tt, {| tables := <[t := tb']> (tables s); clock := now' |}, [c])
      | Raise err => (Raise err, s, [])
      end
  end.

(** Modelled from the spec: [insertEntity(tableName, entity)]. *)
Definition insert_entity (t : string) (e : Entity) : M unit :=
  on_table t (CInsert t e) (λ now tb, apply_ops now tb [OpInsert e]).

(** Modelled from the spec: [updateEntity(tableName, entity)]. *)
Definition update_entity (t : string) (e : Entity) : M unit :=
  on_table t (CUpdate t e) (λ now tb,
    match put_existing now tb e with
    | Ok tb' => Ok (tb', S now)
    | Raise err => Raise err
    end).

(** Modelled from the spec: [commitBatch(tableName, orderedOperations)],
    atomic: a batch that breaks the constraints or has a failing
    operation leaves the store unchanged. *)
Definition commit_batch (t : string) (b : list BatchOp) : M unit :=
  on_table t (CCommit t b) (λ now tb,
    if batch_valid b then apply_ops now tb b else Raise (BatchConstraintViolation b)).

(** Modelled from the spec: [getEntity(tableName, partitionKey, rowKey)],
    which fails with NotFound if the entity is absent.  A point read
    changes nothing and leaves no entry in the log, which keeps the calls
    on whole tables and the writes by insert, update and batch. *)
Definition get_entity (t : string) (pk rk : string) : M Entity := λ s,
  match tables s !! t with
  | None => (Raise (TableNotFound t), s, [])
  | Some tb =>
      match tb !! (pk, rk) with
      | Some e => (Ok e, s, [])
      | None => (Raise (EntityNotFound (pk, rk)), s, [])
      end
  end.

(** Modelled from the spec: the single delete of the store, which
    removes the entity with the given keys as the delete operation of a
    batch does.  Like the point read it leaves no entry in the log. *)
Definition delete_entity (t : string) (pk rk : value) : M unit := λ s,
  match tables s !! t with
  | None => (Raise (TableNotFound t), s, [])
  | Some tb =>
      match remove tb pk rk with
      | Ok tb' => (Ok tt, {| tables := <[t := tb']> (tables s); clock := clock s |}, [])
      | Raise err => (Raise err, s, [])
      end
  end.

(** [d[k]] on a Python dictionary. *)
Definition dict_get (d : Entity) (k : string) : M value :=
  match d !! k with
  | Some v => ret v
  | None => raise (KeyError k)
  end.

(** A pandas call that may raise KeyError. *)
Definition or_key_error {A} (k : string) (o : option A) : M A :=
  match o with
  | Some a => ret a
  | None => raise (KeyError k)
  end.

End Service.

Import Service.

(** ** The table helpers of tables.py *)

Local Open Scope M_scope.

Definition table_exists (table_name : string) : M bool :=
  Service.exists_ table_name.

Definition create_table (table_name : string) : M unit :=
  b ← table_exists table_name;
  if negb b then Service.create_table table_name
  else ret tt (* print: already exists *).

Definition delete_table_if_exists (table_name : string) : M unit :=
  b ← Service.exists_ table_name;
  if b then Service.delete_table table_name else ret tt.

(** [query_entities] with its defaults: a dataframe, no filter. *)
Definition query_entities (table_name : string) : M DataFrame :=
  entities ← Service.query_entities table_name;
  ret (from_records entities).

(** The loop of [delete_all_rows_batch] over the scanned entities, with
    its three variables. *)
Fixpoint delete_loop (table_name : string) (entities : list Entity)
    (batch : list BatchOp) (current_partition_key : option value) (batch_count : nat)
    : M unit :=
  match entities with
  | [] =>
      if 0 <? batch_count then Service.commit_batch table_name batch else ret tt
  | entity :: entities' =>
      pk ← dict_get entity "PartitionKey";
      '(batch, current_partition_key, batch_count) ←
        (if bool_decide (current_partition_key ≠ Some pk) || (batch_count =? 100)
         then
           (if bool_decide (current_partition_key ≠ None)
            then Service.commit_batch table_name batch else ret tt);;
           pk ← dict_get entity "PartitionKey";
           ret ([], Some pk, 0)
         else ret (batch, current_partition_key, batch_count)
         : M (list BatchOp * option value * nat));
      pk ← dict_get entity "PartitionKey";
      rk ← dict_get entity "RowKey";
      delete_loop table_name entities' (batch ++ [OpDelete pk rk])
        current_partition_key (batch_count + 1)
  end.

Definition delete_all_rows_batch (table_name : string) : M unit :=
  entities ← Service.query_entities table_name;
  delete_loop table_name entities [] None 0.

(** The entity built from one row: the two keys first, then every item
    of the row ([setattr] on an [Entity] sets the dictionary item). *)
Definition make_entity (row : Entity) : M Entity :=
  pk ← dict_get row "PartitionKey";
  let entity := <["PartitionKey" := pk]> (∅ : Entity) in
  rk ← dict_get row "RowKey";
  let entity := <["RowKey" := rk]> entity in
  ret (foldl (λ (e : Entity) kv, <[kv.1 := kv.2]> e) entity (map_to_list row)).

(** The loop of [write_df_to_azure_table]: one insert per row. *)
Fixpoint insert_loop (table_name : string) (data : list Entity) : M unit :=
  match data with
  | [] => ret tt
  | row :: data' =>
      entity ← make_entity row;
      Service.insert_entity table_name entity;;
      insert_loop table_name data'
  end.

Definition write_df_to_azure_table (table_name : string) (df : DataFrame)
    (truncate : bool) : M unit :=
  b ← table_exists table_name;
  (if negb b then create_table table_name else ret tt);;
  (if truncate then delete_all_rows_batch table_name else ret tt);;
  let data := to_dict_records df in
  insert_loop table_name data.

(** The loop of [write_df_to_azure_table_batch], with its two variables. *)
Fixpoint write_loop (table_name : string) (data : list Entity)
    (batch : list BatchOp) (batch_count : nat) : M unit :=
  match data with
  | [] =>
      if 0 <? batch_count then Service.commit_batch table_name batch else ret tt
  | row :: data' =>
      entity ← make_entity row;
      let batch := batch ++ [OpInsert entity] in
      let batch_count := batch_count + 1 in
      if batch_count =? 100
      then Service.commit_batch table_name batch;;
           write_loop table_name data' [] 0
      else write_loop table_name data' batch batch_count
  end.

Definition write_df_to_azure_table_batch (table_name : string) (df : DataFrame)
    (truncate : bool) : M unit :=
  b ← table_exists table_name;
  (if negb b then create_table table_name else ret tt);;
  (if truncate then delete_all_rows_batch table_name else ret tt);;
  let data := to_dict_records df in
  write_loop table_name data [] 0.

Definition rename_table (old_name new_name : string) : M unit :=
  delete_table_if_exists new_name;;
  create_table new_name;;
  entities ← query_entities old_name;
  entities ← or_key_error "Timestamp" (drop_column entities "Timestamp");
  write_df_to_azure_table new_name entities true;;
  delete_table_if_exists old_name.

Fixpoint copy_loop (table_name : string) (entities : list Entity)
    (old_column new_column : string) : M unit :=
  match entities with
  | [] => ret tt
  | entity :: entities' =>
      (if bool_decide (is_Some (entity !! old_column))
       then
         let new_entity := entity in
         v ← dict_get new_entity old_column;
         let new_entity := <[new_column := v]> new_entity in
         Service.update_entity table_name new_entity
       else ret tt);;
      copy_loop table_name entities' old_column new_column
  end.

Definition copy_column (table_name old_column new_column : string) : M unit :=
  entities ← Service.query_entities table_name;
  copy_loop table_name entities old_column new_column.

Fixpoint drop_loop (table_name : string) (entities : list Entity)
    (column_name : string) : M unit :=
  match entities with
  | [] => ret tt
  | entity :: entities' =>
      (if bool_decide (is_Some (entity !! column_name))
       then
         let new_entity : Entity := filter (λ kv, kv.1 ≠ column_name) entity in
         Service.update_entity table_name new_entity
       else ret tt);;
      drop_loop table_name entities' column_name
  end.

Definition delete_column (table_name column_name : string) : M unit :=
  entities ← Service.query_entities table_name;
  drop_loop table_name entities column_name.

Definition rename_column (table_name old_column new_column : string) : M unit :=
  copy_column table_name old_column new_column;;
  delete_column table_name old_column.

Definition query_entity (table_name partition_key row_key : string) : M Entity :=
  entity ← Service.get_entity table_name partition_key row_key;
  ret entity.

(** The loop of [delete_all_rows]: one delete per scanned entity. *)
Fixpoint delete_rows_loop (table_name : string) (entities : list Entity) : M unit :=
  match entities with
  | [] => ret tt
  | entity :: entities' =>
      pk ← dict_get entity "PartitionKey";
      rk ← dict_get entity "RowKey";
      Service.delete_entity table_name pk rk;;
      delete_rows_loop table_name entities'
  end.

Definition delete_all_rows (table_name : string) : M unit :=
  entities ← Service.query_entities table_name;
  delete_rows_loop table_name entities.

Local Close Scope M_scope.

(** ** Reading the outcome of a run *)

(** The batches committed among a list of calls, in order. *)
Definition committed (l : list Call) : list (list BatchOp) :=
  omap (λ c, match c with CCommit _ b => Some b | _ => None end) l.

(** The single inserts among a list of calls, in order. *)
Definition inserted (l : list Call) : list Entity :=
  omap (λ c, match c with CInsert _ e => Some e | _ => None end) l.

(** The updates among a list of calls, in order. *)
Definition updated (l : list Call) : list Entity :=
  omap (λ c, match c with CUpdate _ e => Some e | _ => None end) l.

(** The calls that change the store. *)
Definition is_effect (c : Call) : bool :=
  match c with
  | CExists _ | CQuery _ => false
  | _ => true
  end.

Definition effects (l : list Call) : list Call :=
  filter (λ c, is_effect c = true) l.

(** The store once [table_name] has been created if it was missing. *)
Definition ensured (t : string) (s : Store) : Store :=
  match tables s !! t with
  | Some _ => s
  | None => {| tables := <[t := ∅]> (tables s); clock := clock s |}
  end.

(** ** Well-formed stores *)

(** What the service guarantees of every table: an entity is stored
    under its own keys and carries the timestamp of its last write. *)
Definition wf_table (tb : gmap (string * string) Entity) : Prop :=
  map_Forall (λ k e, key_of e = Some k ∧ is_Some (e !! "Timestamp")) tb.

#[global] Instance wf_table_dec tb : Decision (wf_table tb).
Proof. unfold wf_table. apply _. Defined.

Definition wf_store (s : Store) : Prop :=
  ∀ t tb, tables s !! t = Some tb → wf_table tb.

(** The delete operation for the entity stored under key [k]. *)
Definition key_op (k : string * string) : BatchOp := OpDelete (VStr k.1) (VStr k.2).

(** ** Tables and the entities written to them *)

(** [tb'] is [tb] with the entities [es] added: each has keys, the keys
    are distinct and new to [tb], [tb'] has these keys besides those of
    [tb], what [tb] held is unchanged, and each entity is stored under
    its keys as the service stamped it. *)
Definition added (tb tb' : gmap (string * string) Entity) (es : list Entity) : Prop :=
  ∃ ks : list (string * string),
    Forall2 (λ e k, key_of e = Some k) es ks ∧
    NoDup ks ∧
    (∀ k, k ∈ ks → tb !! k = None) ∧
    dom tb' = dom tb ∪ list_to_set ks ∧
    (∀ k e, tb !! k = Some e → tb' !! k = Some e) ∧
    Forall2 (λ e k, ∃ n, tb' !! k = Some (stamp n e)) es ks.


(** ** Rewriting the entities of a table *)

(** The names the service reserves. *)
Definition reserved : list string := ["PartitionKey"; "RowKey"; "Timestamp"].

(** The loop that [copy_column] and [delete_column] share: write back
    [f entity] for the entities where [f] gives one. *)
Fixpoint rewrite_loop (table_name : string) (entities : list Entity)
    (f : Entity → option Entity) : M unit :=
  match entities with
  | [] => ret tt
  | entity :: entities' =>
      bind (match f entity with
            | Some new_entity => Service.update_entity table_name new_entity
            | None => ret tt
            end)
        (λ _, rewrite_loop table_name entities' f)
  end.

(** The entity that [copy_column] writes back, if any. *)
Definition with_copy (old_column new_column : string) (e : Entity) : option Entity :=
  (λ v, <[new_column := v]> e) <$> e !! old_column.

(** The entity that [delete_column] writes back, if any. *)
Definition without (column_name : string) (e : Entity) : option Entity :=
  if bool_decide (is_Some (e !! column_name)) then Some (delete column_name e) else None.

(** The entities of [tb] that lack [column] are in [tb'] as they were. *)
Definition untouched (column : string) (tb tb' : gmap (string * string) Entity) : Prop :=
  ∀ k e, tb !! k = Some e → e !! column = None → tb' !! k = Some e.

(** [tb'] is [tb] with [f e] written back, stamped, for the entities
    where [f] gives an entity, and as [tb] elsewhere. *)
Definition rewritten (f : Entity → option Entity)
    (tb tb' : gmap (string * string) Entity) : Prop :=
  dom tb' = dom tb ∧
  ∀ k e, tb !! k = Some e →
    match f e with
    | Some e' => ∃ n, tb' !! k = Some (stamp n e')
    | None => tb' !! k = Some e
    end.

(** The columns of the frame that [rename_table] writes: every key of
    the scanned entities but the timestamp. *)
Definition copied_columns (entities : list Entity) : list string :=
  filter (λ c, c ≠ "Timestamp") (columns (from_records entities)).

(** The rows that [rename_table] writes: the scanned entities without
    their timestamp, each with every copied column, NaN where it had none. *)
Definition copied_rows (entities : list Entity) : list Entity :=
  map (row_dict (copied_columns entities)) (map (delete "Timestamp") entities).

(** ** Example data *)

(** An entity with the given keys and further properties. *)
Definition ent (pk rk : string) (props : list (string * value)) : Entity :=
  list_to_map (("PartitionKey", VStr pk) :: ("RowKey", VStr rk) :: props).

(** A store with the one table [t], filled by inserting [es] in order. *)
Definition store_of (t : string) (es : list Entity) : Store :=
  final (insert_loop t es {| tables := {[t := ∅]}; clock := 0 |}).

(** Two entities of two partitions. *)
Definition two_partitions : list Entity :=
  [ent "a" "1" [("x", VInt 1)]; ent "b" "2" [("x", VInt 2)]].

(** A table where one entity names another in its column [x]. *)
Definition cross_keys : list Entity :=
  [ent "p" "r1" [("x", VStr "r2")]; ent "p" "r2" []].


(** Two entities of one partition. *)
Definition one_partition : list Entity :=
  [ent "a" "1" [("x", VInt 1)]; ent "a" "2" [("x", VInt 2)]].

(** Whether a batch operation is a delete. *)
Definition is_delete_op (op : BatchOp) : Prop :=
  match op with
  | OpDelete _ _ => True
  | OpInsert _ => False
  end.

(** The key that a row of a frame with these columns is missing first. *)
Definition missing_key (cols : list string) : string :=
  if decide ("PartitionKey" ∈ cols) then "RowKey" else "PartitionKey".

(** ** Groupings of an operation sequence *)

(** The delete operation that [delete_all_rows_batch] adds for an entity. *)
Definition delete_op (e : Entity) : BatchOp :=
  OpDelete (cell e "PartitionKey") (cell e "RowKey").



(** ** The steps of [rename_table] *)

(** The third step: scan the source, drop the timestamp, write the rows. *)
Definition copy_entities (old_name new_name : string) : M unit :=
  bind (query_entities old_name) (λ entities,
    bind (or_key_error "Timestamp" (drop_column entities "Timestamp")) (λ entities,
      write_df_to_azure_table new_name entities true)).

Definition rename_steps (old_name new_name : string) : list (M unit) :=
  [delete_table_if_exists new_name; create_table new_name;
   copy_entities old_name new_name; delete_table_if_exists old_name].

(** A run of steps in order: each step starts in the store the step
    before it left; the first step that raises ends the run, with its
    exception, in the store as that step left it, and no later step runs;
    the calls of the run are those of the steps that ran, in order. *)
Inductive runs_in_order : list (M unit) → Store → Res unit * Store * list Call → Prop :=
  | run_done s : runs_in_order [] s (Ok tt, s, [])
  | run_raise m rest s e s' l :
      m s = (Raise e, s', l) → runs_in_order (m :: rest) s (Raise e, s', l)
  | run_next m rest s s' l r s'' l' :
      m s = (Ok tt, s', l) → runs_in_order rest s' (r, s'', l') →
      runs_in_order (m :: rest) s (r, s'', l ++ l').

(** The effect of a completed call on the store. *)
Definition replay_call (c : Call) (s : Store) : Store :=
  match c with
  | CExists _ | CQuery _ => s
  | CCreateTable t => final (Service.create_table t s)
  | CDeleteTable t => final (Service.delete_table t s)
  | CInsert t e => final (Service.insert_entity t e s)
  | CUpdate t e => final (Service.update_entity t e s)
  | CCommit t b => final (Service.commit_batch t b s)
  end.

Definition replay (l : list Call) (s : Store) : Store :=
  foldl (λ s c, replay_call c s) s l.

(** A computation leaves the store that its completed calls produce. *)
Definition consistent {A} (m : M A) : Prop :=
  ∀ s, final (m s) = replay (calls (m s)) s.

(** * Properties *)

(** ** Decimal strings *)

Module PyStrFacts.
Import PyStr.

Lemma append_cons x a b : String x a +:+ b = String x (a +:+ b).
Proof. reflexivity. Qed.

Lemma append_nil_l b : "" +:+ b = b.
Proof. reflexivity. Qed.

Ltac sapp := rewrite ?append_cons, ?append_nil_l.

Lemma append_assoc (a b c : string) : (a +:+ b) +:+ c = a +:+ (b +:+ c).
Proof. induction a as [|x a IH]; sapp; [reflexivity | by rewrite IH]. Qed.

Lemma append_nil_r (a : string) : a +:+ "" = a.
Proof. induction a as [|x a IH]; sapp; [reflexivity | by rewrite IH]. Qed.

Lemma length_append (a b : string) :
  String.length (a +:+ b) = String.length a + String.length b.
Proof. induction a as [|x a IH]; sapp; simpl; [reflexivity | by rewrite IH]. Qed.

Lemma str_go_acc fuel : ∀ n acc, str_go fuel n acc = str_go fuel n "" +:+ acc.
Proof.
  induction fuel as [|fuel IH]; intros n acc; cbn [str_go]; [reflexivity|].
  destruct (Nat.eqb (n / 10) 0); [reflexivity|].
  rewrite (IH _ (String _ acc)), (IH _ (String _ "")).
  by rewrite append_assoc.
Qed.

Lemma str_go_fuel f1 : ∀ f2 n acc,
  n < f1 → n < f2 → str_go f1 n acc = str_go f2 n acc.
Proof.
  induction f1 as [|f1 IH]; intros f2 n acc H1 H2; [lia|].
  destruct f2 as [|f2]; [lia|]. cbn [str_go].
  destruct (Nat.eqb_spec (n / 10) 0) as [|Hne]; [reflexivity|].
  assert (n / 10 < n) by (apply Nat.div_lt; [destruct n; [by rewrite Nat.Div0.div_0_l in Hne|lia] | lia]).
  apply IH; lia.
Qed.

Lemma str_nat_small n : n < 10 → str_nat n = String (digit n) "".
Proof.
  intros Hn. unfold str_nat. cbn [str_go].
  rewrite Nat.div_small, Nat.mod_small by lia. reflexivity.
Qed.

Lemma str_nat_step n :
  10 ≤ n → str_nat n = str_nat (n / 10) +:+ String (digit (n mod 10)) "".
Proof.
  intros Hn. unfold str_nat at 1. cbn [str_go].
  assert (0 < n / 10) by (apply Nat.div_str_pos; lia).
  destruct (Nat.eqb_spec (n / 10) 0) as [|_]; [lia|].
  rewrite str_go_acc. f_equal.
  apply str_go_fuel; [|lia].
  apply Nat.div_lt; lia.
Qed.

(** [str(n)] has at least one digit and exactly as many as [n] needs. *)
Lemma str_nat_bound n :
  1 ≤ String.length (str_nat n) ∧ n < 10 ^ String.length (str_nat n).
Proof.
  induction (lt_wf n) as [n _ IH].
  destruct (le_lt_dec 10 n) as [Hn|Hn].
  - rewrite str_nat_step by done. rewrite length_append. cbn [String.length].
    destruct (IH (n / 10)) as [H1 H2]; [apply Nat.div_lt; lia|].
    split; [lia|].
    rewrite Nat.add_1_r, Nat.pow_succ_r'.
    pose proof (Nat.div_mod_eq n 10). pose proof (Nat.mod_upper_bound n 10). lia.
  - rewrite str_nat_small by done. simpl. lia.
Qed.

Lemma str_nat_length_le w : ∀ n, 1 ≤ w → n < 10 ^ w → String.length (str_nat n) ≤ w.
Proof.
  induction w as [|w IH]; intros n Hw Hn; [lia|].
  destruct (le_lt_dec 10 n) as [Hn10|Hn10].
  - rewrite Nat.pow_succ_r' in Hn.
    assert (n / 10 < 10 ^ w) by (apply Nat.Div0.div_lt_upper_bound; lia).
    assert (1 ≤ w).
    { destruct w; [|lia]. simpl in Hn. lia. }
    rewrite str_nat_step, length_append by done. cbn [String.length].
    specialize (IH (n / 10)). lia.
  - rewrite str_nat_small by done. simpl. lia.
Qed.

Lemma zeros_snoc k : zeros k +:+ "0" = String "0"%char (zeros k).
Proof. induction k as [|k IH]; simpl; sapp; [reflexivity | by rewrite IH]. Qed.

Lemma fixed_zero w : fixed w 0 = zeros w.
Proof.
  induction w as [|w IH]; cbn [fixed zeros]; [reflexivity|].
  rewrite Nat.Div0.div_0_l, Nat.Div0.mod_0_l, IH. apply zeros_snoc.
Qed.

Lemma length_fixed w : ∀ n, String.length (fixed w n) = w.
Proof.
  induction w as [|w IH]; intros n; cbn [fixed]; [reflexivity|].
  rewrite length_append, IH. cbn [String.length]. lia.
Qed.

Lemma zfill_snoc w s c :
  String.length s ≤ w → zfill (S w) (s +:+ String c "") = zfill w s +:+ String c "".
Proof.
  intros Hs. unfold zfill. rewrite length_append. cbn [String.length].
  replace (S w - (String.length s + 1)) with (w - String.length s) by lia.
  by rewrite append_assoc.
Qed.

(** Padding the decimal string of [n] to a width that holds [n] gives the
    digits of [n] at that width. *)
Lemma zfill_str_nat w : ∀ n, 1 ≤ w → n < 10 ^ w → zfill w (str_nat n) = fixed w n.
Proof.
  induction w as [|w IH]; intros n Hw Hn; [lia|].
  destruct (le_lt_dec 10 n) as [Hn10|Hn10].
  - rewrite Nat.pow_succ_r' in Hn.
    assert (n / 10 < 10 ^ w) by (apply Nat.Div0.div_lt_upper_bound; lia).
    assert (1 ≤ w).
    { destruct w; [|lia]. simpl in Hn. lia. }
    rewrite str_nat_step by done.
    rewrite zfill_snoc by (by apply str_nat_length_le).
    cbn [fixed]. by rewrite IH.
  - rewrite str_nat_small by done. cbn [fixed].
    rewrite Nat.div_small, Nat.mod_small, fixed_zero by lia.
    unfold zfill. cbn [String.length].
    by replace (S w - 1) with w by lia.
Qed.

Lemma ascii_compare_refl c : Ascii.compare c c = Eq.
Proof. unfold Ascii.compare. apply N.compare_refl. Qed.

Lemma compare_refl s : String.compare s s = Eq.
Proof. induction s as [|c s IH]; simpl; [reflexivity|]. by rewrite ascii_compare_refl. Qed.

Lemma compare_append_l p x y : String.compare (p +:+ x) (p +:+ y) = String.compare x y.
Proof.
  induction p as [|c p IH]; sapp; [reflexivity|]. simpl.
  by rewrite ascii_compare_refl.
Qed.

Lemma compare_snoc x : ∀ y c d,
  String.length x = String.length y →
  String.compare (x +:+ String c "") (y +:+ String d "") =
    match String.compare x y with
    | Eq => Ascii.compare c d
    | r => r
    end.
Proof.
  induction x as [|a x IH]; intros [|b y] c d Hl; simplify_eq/=; sapp.
  - simpl. by destruct (Ascii.compare c d).
  - simpl. destruct (Ascii.compare a b); [by apply IH | done | done].
Qed.

Lemma N_of_digit d : d < 10 → N_of_ascii (digit d) = N.of_nat (48 + d).
Proof.
  intros Hd. unfold digit, ascii_of_nat.
  apply N_ascii_embedding. lia.
Qed.

Lemma digit_compare a b : a < b → b < 10 → Ascii.compare (digit a) (digit b) = Lt.
Proof.
  intros Hab Hb. unfold Ascii.compare.
  rewrite !N_of_digit by lia.
  apply N.compare_lt_iff. lia.
Qed.

(** At a fixed width the order of the digit strings is the order of the
    numbers. *)
Lemma fixed_lt w : ∀ a b, a < b → b < 10 ^ w → String.compare (fixed w a) (fixed w b) = Lt.
Proof.
  induction w as [|w IH]; intros a b Hab Hb; [simpl in Hb; lia|].
  cbn [fixed]. rewrite compare_snoc by (by rewrite !length_fixed).
  rewrite Nat.pow_succ_r' in Hb.
  assert (b / 10 < 10 ^ w) by (apply Nat.Div0.div_lt_upper_bound; lia).
  pose proof (Nat.div_mod_eq a 10). pose proof (Nat.div_mod_eq b 10).
  pose proof (Nat.mod_upper_bound a 10). pose proof (Nat.mod_upper_bound b 10).
  destruct (decide (a / 10 = b / 10)) as [Heq|Hne].
  - rewrite Heq, compare_refl. apply digit_compare; lia.
  - rewrite IH; [done| |done].
    assert (a / 10 ≤ b / 10) by (apply Nat.Div0.div_le_mono; lia). lia.
Qed.

Lemma str_int_of_nat n : str_int (Z.of_nat n) = str_nat n.
Proof.
  unfold str_int. destruct (Z.ltb_spec (Z.of_nat n) 0); [lia|].
  by rewrite Nat2Z.id.
Qed.

End PyStrFacts.

(** ** Dataframes *)

Module PandasFacts.

Lemma len_setitem df c vs : length vs = len df → len (setitem df c vs) = len df.
Proof. intros H. unfold len, setitem. simpl. by rewrite length_zip_with_l_eq. Qed.

Lemma elem_of_columns_setitem df c c' vs :
  c' ∈ columns (setitem df c vs) ↔ c' = c ∨ c' ∈ columns df.
Proof.
  unfold setitem. simpl. case_decide; [|rewrite elem_of_app, list_elem_of_singleton];
    naive_solver.
Qed.

Lemma cells_zip_insert c (rs : list (gmap string value)) : ∀ vs,
  length vs = length rs →
  map (λ r, cell r c) (zip_with (λ r v, <[c := v]> r) rs vs) = vs.
Proof.
  induction rs as [|r rs IH]; intros [|v vs] Hl; simplify_eq/=; [done|].
  unfold cell at 1. rewrite lookup_insert_eq. simpl. by rewrite IH.
Qed.

Lemma cells_zip_insert_ne c c' (rs : list (gmap string value)) : ∀ vs,
  c ≠ c' → length vs = length rs →
  map (λ r, cell r c') (zip_with (λ r v, <[c := v]> r) rs vs) = map (λ r, cell r c') rs.
Proof.
  induction rs as [|r rs IH]; intros [|v vs] Hne Hl; simplify_eq/=; [done|].
  unfold cell at 1 3. rewrite lookup_insert_ne by done. by rewrite IH.
Qed.

Lemma getitem_setitem_eq df c vs :
  length vs = len df → getitem (setitem df c vs) c = Some vs.
Proof.
  intros Hl. unfold getitem. rewrite decide_True by (apply elem_of_columns_setitem; auto).
  unfold setitem. simpl. by rewrite cells_zip_insert.
Qed.

Lemma getitem_setitem_ne df c c' vs :
  c ≠ c' → length vs = len df → getitem (setitem df c vs) c' = getitem df c'.
Proof.
  intros Hne Hl. unfold getitem.
  destruct (decide (c' ∈ columns df)) as [Hin|Hin].
  - rewrite decide_True by (apply elem_of_columns_setitem; auto).
    unfold setitem. simpl. by rewrite cells_zip_insert_ne.
  - rewrite decide_False; [done|].
    rewrite elem_of_columns_setitem. naive_solver.
Qed.

Lemma length_arange n : length (arange n) = n.
Proof. unfold arange. by rewrite length_map, length_seq. Qed.

(** The column that the last assignment of [add_keys_to_df] computes. *)
Lemma row_key_column P w (l : list nat) :
  zip_with add (map (λ p, add p (VStr "-")) (replicate (length l) (VStr P)))
    (map (str_zfill w) (map astype_str (map (λ i, VInt (Z.of_nat i)) l)))
  = map (λ i, VStr (P +:+ "-" +:+ PyStr.zfill w (PyStr.str_nat i))) l.
Proof.
  induction l as [|i l IH]; simpl; [done|].
  rewrite IH. f_equal.
  by rewrite PyStrFacts.str_int_of_nat, PyStrFacts.append_assoc.
Qed.

End PandasFacts.

(** ** Key assignment *)

Lemma add_keys_to_df_eq df P :
  ∃ df', add_keys_to_df df P = Some df' ∧ len df' = len df ∧
    getitem df' "PartitionKey" = Some (replicate (len df) (VStr P)) ∧
    getitem df' "RowKey" = Some (map (λ i, VStr (row_key P (len df) i)) (seq 0 (len df))).
Proof.
  unfold add_keys_to_df.
  set (N := len df). set (w := String.length (PyStr.str_nat N)).
  set (df1 := setitem df "PartitionKey" (replicate N (VStr P))).
  assert (Hl1 : len df1 = N) by (apply PandasFacts.len_setitem, length_replicate).
  rewrite Hl1.
  set (df2 := setitem df1 "RowKey" (arange N)).
  assert (Hl2 : len df2 = N).
  { unfold df2. rewrite PandasFacts.len_setitem; [done|].
    by rewrite PandasFacts.length_arange. }
  assert (Hg2 : getitem df2 "RowKey" = Some (arange N)).
  { apply PandasFacts.getitem_setitem_eq. by rewrite PandasFacts.length_arange. }
  rewrite Hg2. simpl.
  set (col3 := map (str_zfill w) (map astype_str (arange N))).
  assert (Hc3 : length col3 = N).
  { unfold col3. by rewrite !length_map, PandasFacts.length_arange. }
  set (df3 := setitem df2 "RowKey" col3).
  assert (Hl3 : len df3 = N).
  { unfold df3. rewrite PandasFacts.len_setitem; congruence. }
  assert (Hp3 : getitem df3 "PartitionKey" = Some (replicate N (VStr P))).
  { unfold df3. rewrite PandasFacts.getitem_setitem_ne by (done || congruence).
    unfold df2.
    rewrite PandasFacts.getitem_setitem_ne
      by (done || by rewrite PandasFacts.length_arange).
    apply PandasFacts.getitem_setitem_eq, length_replicate. }
  assert (Hg3 : getitem df3 "RowKey" = Some col3).
  { apply PandasFacts.getitem_setitem_eq. congruence. }
  rewrite Hp3, Hg3. simpl.
  assert (Hcol : zip_with add (map (λ p, add p (VStr "-")) (replicate N (VStr P))) col3
                 = map (λ i, VStr (row_key P N i)) (seq 0 N)).
  { pose proof (PandasFacts.row_key_column P w (seq 0 N)) as Hk.
    by rewrite length_seq in Hk. }
  rewrite Hcol.
  assert (Hlk : length (map (λ i, VStr (row_key P N i)) (seq 0 N)) = len df3).
  { by rewrite length_map, length_seq. }
  eexists. split; [reflexivity|]. split; [|split].
  - rewrite PandasFacts.len_setitem; done.
  - rewrite PandasFacts.getitem_setitem_ne; done.
  - by apply PandasFacts.getitem_setitem_eq.
Qed.

Lemma row_key_lt P N i j : i < j → j < N → PyStr.str_lt (row_key P N i) (row_key P N j).
Proof.
  intros Hij HjN. unfold PyStr.str_lt, row_key.
  rewrite !PyStrFacts.compare_append_l.
  destruct (PyStrFacts.str_nat_bound N) as [Hw HN].
  rewrite !PyStrFacts.zfill_str_nat by lia.
  apply PyStrFacts.fixed_lt; lia.
Qed.

(** C4. For a frame of N rows and a partition value P, [add_keys_to_df]
    returns a frame of N rows whose PartitionKey column is P on every row
    and whose RowKey at position i is P, a dash and i zero-padded to the
    width [len(str(N))]; these row keys increase strictly in
    lexicographic order along the rows; and the RowKey column is a
    function of N and P alone, so that equal inputs, and also a second
    application to the result, give the identical RowKey column. *)
Theorem add_keys_to_df_keys (df : DataFrame) (P : string) :
  ∃ df',
    add_keys_to_df df P = Some df' ∧
    len df' = len df ∧
    getitem df' "PartitionKey" = Some (replicate (len df) (VStr P)) ∧
    getitem df' "RowKey" = Some (map (λ i, VStr (row_key P (len df) i)) (seq 0 (len df))) ∧
    (∀ i j, i < j → j < len df →
       PyStr.str_lt (row_key P (len df) i) (row_key P (len df) j)) ∧
    (∀ other, len other = len df →
       ∃ df2, add_keys_to_df other P = Some df2 ∧
              getitem df2 "RowKey" = getitem df' "RowKey") ∧
    (∃ df2, add_keys_to_df df' P = Some df2 ∧
            getitem df2 "RowKey" = getitem df' "RowKey").
Proof.
  destruct (add_keys_to_df_eq df P) as (df' & Heq & Hlen & Hpk & Hrk).
  exists df'. repeat split; try done.
  - intros i j. apply row_key_lt.
  - intros other Hother.
    destruct (add_keys_to_df_eq other P) as (df2 & Heq2 & _ & _ & Hrk2).
    exists df2. split; [done|]. by rewrite Hrk2, Hrk, Hother.
  - destruct (add_keys_to_df_eq df' P) as (df2 & Heq2 & _ & _ & Hrk2).
    exists df2. split; [done|]. by rewrite Hrk2, Hrk, Hlen.
Qed.

Lemma add_keys_to_df_keys_witness :
  ∃ df', add_keys_to_df (from_records one_partition) "p" = Some df' ∧
         getitem df' "RowKey" = Some [VStr "p-0"; VStr "p-1"].
Proof.
  destruct (add_keys_to_df_keys (from_records one_partition) "p")
    as (df' & H1 & _ & _ & H2 & _).
  exists df'. split; [exact H1|]. rewrite H2. vm_compute. reflexivity.
Defined.


(** ** Runs of the store monad *)

Module RunFacts.

Lemma bind_ok {A B} (m : M A) (k : A → M B) s a s1 l1 :
  m s = (Ok a, s1, l1) →
  bind m k s = (result (k a s1), final (k a s1), l1 ++ calls (k a s1)).
Proof. intros H. unfold bind. rewrite H. by destruct (k a s1) as [[? ?] ?]. Qed.

Lemma bind_raise {A B} (m : M A) (k : A → M B) s e s1 l1 :
  m s = (Raise e, s1, l1) → bind m k s = (Raise e, s1, l1).
Proof. intros H. unfold bind. by rewrite H. Qed.

Lemma bind_pure {A B} (m : M A) (k : A → M B) s a :
  m s = (Ok a, s, []) → bind m k s = k a s.
Proof. intros H. unfold bind. rewrite H. by destruct (k a s) as [[? ?] ?]. Qed.

Lemma bind_ret {A B} (a : A) (k : A → M B) s : bind (ret a) k s = k a s.
Proof. unfold bind, ret. by destruct (k a s) as [[? ?] ?]. Qed.


Lemma committed_app l1 l2 : committed (l1 ++ l2) = committed l1 ++ committed l2.
Proof. apply omap_app. Qed.

Lemma inserted_app l1 l2 : inserted (l1 ++ l2) = inserted l1 ++ inserted l2.
Proof. apply omap_app. Qed.

Lemma updated_app l1 l2 : updated (l1 ++ l2) = updated l1 ++ updated l2.
Proof. apply omap_app. Qed.

(** A write to a table either completes, logging its call, or raises and
    leaves the store as it was. *)
Lemma on_table_cases t c f s :
  (∃ tb tb' now', tables s !! t = Some tb ∧ f (clock s) tb = Ok (tb', now') ∧
     on_table t c f s =
       (Ok tt, {| tables := <[t := tb']> (tables s); clock := now' |}, [c])) ∨
  (∃ e, on_table t c f s = (Raise e, s, [])).
Proof.
  unfold on_table. destruct (tables s !! t) as [tb|]; [|eauto].
  destruct (f (clock s) tb) as [[tb' now']|e] eqn:Hf; [|eauto].
  left. by exists tb, tb', now'.
Qed.

Lemma dict_get_Some (d : Entity) k v s : d !! k = Some v → dict_get d k s = (Ok v, s, []).
Proof. intros H. unfold dict_get. by rewrite H. Qed.

Lemma dict_get_None (d : Entity) k s :
  d !! k = None → dict_get d k s = (Raise (KeyError k), s, []).
Proof. intros H. unfold dict_get. by rewrite H. Qed.

Lemma foldl_insert_items (l : list (string * value)) : ∀ e0 : Entity,
  NoDup l.*1 →
  foldl (λ (e : Entity) kv, <[kv.1 := kv.2]> e) e0 l = list_to_map l ∪ e0.
Proof.
  induction l as [|[k v] l IH]; intros e0 Hnd; simpl.
  - by rewrite (left_id_L ∅ (∪)).
  - inversion_clear Hnd as [|?? Hk Hnd'].
    rewrite IH by done.
    rewrite <- insert_union_l.
    rewrite <- insert_union_r; [done|].
    by apply not_elem_of_list_to_map_1.
Qed.

(** The entity built from a row is the row itself. *)
Lemma make_entity_run (row : Entity) s :
  make_entity row s =
    match row !! "PartitionKey", row !! "RowKey" with
    | Some _, Some _ => (Ok row, s, [])
    | None, _ => (Raise (KeyError "PartitionKey"), s, [])
    | Some _, None => (Raise (KeyError "RowKey"), s, [])
    end.
Proof.
  unfold make_entity.
  destruct (row !! "PartitionKey") as [pk|] eqn:Hpk.
  2:{ by rewrite (bind_raise _ _ _ _ _ _ (dict_get_None _ _ _ Hpk)). }
  rewrite (bind_ok _ _ _ _ _ _ (dict_get_Some _ _ _ _ Hpk)).
  destruct (row !! "RowKey") as [rk|] eqn:Hrk.
  2:{ by rewrite (bind_raise _ _ _ _ _ _ (dict_get_None _ _ _ Hrk)). }
  rewrite (bind_ok _ _ _ _ _ _ (dict_get_Some _ _ _ _ Hrk)).
  unfold ret, result, final, calls. simpl. do 3 f_equal.
  rewrite foldl_insert_items by apply NoDup_fst_map_to_list.
  rewrite list_to_map_to_list.
  apply map_eq. intros k.
  destruct (row !! k) as [v|] eqn:Hk.
  - by apply lookup_union_Some_l.
  - apply lookup_union_None. split; [done|].
    rewrite lookup_insert_ne by congruence.
    rewrite lookup_insert_ne by congruence. apply lookup_empty.
Qed.

End RunFacts.

(** ** Groupings *)

Module GroupFacts.





End GroupFacts.

(** ** The batches the two loops commit *)

Module LoopFacts.
Import RunFacts.

Lemma commit_batch_cases t b s :
  (∃ s', commit_batch t b s = (Ok tt, s', [CCommit t b])) ∨
  (∃ e, commit_batch t b s = (Raise e, s, [])).
Proof.
  unfold commit_batch.
  destruct (on_table_cases t (CCommit t b)
    (λ now tb, if batch_valid b then apply_ops now tb b
               else Raise (BatchConstraintViolation b)) s)
    as [(tb & tb' & now' & _ & _ & ->)|[e ->]]; eauto.
Qed.


Lemma delete_loop_batches t entities : ∀ batch cur batch_count s,
  length batch = batch_count → batch_count ≤ 100 →
  (cur = None → batch_count = 0) → (cur ≠ None → 1 ≤ batch_count) →
  let r := delete_loop t entities batch cur batch_count s in
  Forall (λ b, 1 ≤ length b ≤ 100) (committed (calls r)) ∧
  concat (committed (calls r)) `prefix_of` batch ++ map delete_op entities ∧
  (result r = Ok tt → concat (committed (calls r)) = batch ++ map delete_op entities).
Proof.
  induction entities as [|entity entities IH];
    intros batch cur n s Hlen Hn Hnone Hsome; cbn [delete_loop].
  - destruct (Nat.ltb_spec 0 n) as [Hpos|Hz].
    + destruct (commit_batch_cases t batch s) as [[s' ->]|[e ->]];
        cbn; rewrite ?app_nil_r.
      * split; [constructor; [lia | constructor]|]. by split.
      * split; [constructor|]. split; [apply prefix_nil | done].
    + assert (batch = []) as -> by (apply length_zero_iff_nil; lia).
      cbn. split; [constructor|]. by split.
  - destruct (entity !! "PartitionKey") as [pk|] eqn:Hpk.
    2:{ rewrite (bind_raise _ _ _ _ _ _ (dict_get_None _ _ _ Hpk)). cbn.
        split; [constructor|]. split; [apply prefix_nil | done]. }
    rewrite (bind_ok _ _ _ _ _ _ (dict_get_Some _ _ _ _ Hpk)). cbn [app].
    assert (Hop : ∀ rk, entity !! "RowKey" = Some rk → delete_op entity = OpDelete pk rk).
    { intros rk Hrk. unfold delete_op, cell. by rewrite Hpk, Hrk. }
    destruct (bool_decide (cur ≠ Some pk) || (n =? 100)) eqn:Hflush.
    + (* the key changed or the batch is full: flush and start anew *)
      assert (Hstart : ∀ s1 l1,
        Forall (λ b, 1 ≤ length b ≤ 100) (committed l1) →
        concat (committed l1) = batch →
        let r := bind (dict_get entity "PartitionKey") (λ pk0,
                   bind (dict_get entity "RowKey") (λ rk,
                     delete_loop t entities ([] ++ [OpDelete pk0 rk]) (Some pk) (0 + 1))) s1 in
        Forall (λ b, 1 ≤ length b ≤ 100) (committed (l1 ++ calls r)) ∧
        concat (committed (l1 ++ calls r)) `prefix_of` batch ++ map delete_op (entity :: entities) ∧
        (result r = Ok tt →
           concat (committed (l1 ++ calls r)) = batch ++ map delete_op (entity :: entities))).
      { intros s1 l1 Hl1 Hc1.
        rewrite (bind_ok _ _ _ _ _ _ (dict_get_Some _ _ _ _ Hpk)). cbn [app].
        destruct (entity !! "RowKey") as [rk|] eqn:Hrk.
        2:{ rewrite (bind_raise _ _ _ _ _ _ (dict_get_None _ _ _ Hrk)). cbn.
            rewrite app_nil_r, Hc1. split; [done|].
            split; [by apply prefix_app_r | done]. }
        rewrite (bind_ok _ _ _ _ _ _ (dict_get_Some _ _ _ _ Hrk)).
        cbn -[delete_loop committed].
        destruct (IH [OpDelete pk rk] (Some pk) 1 s1 eq_refl ltac:(lia)
                    ltac:(done) ltac:(lia)) as (IH1 & IH2 & IH3).
        cbn -[delete_loop committed] in IH1, IH2, IH3.
        rewrite committed_app, concat_app, Hc1, (Hop rk eq_refl).
        split; [by apply Forall_app|].
        split; [by apply prefix_app|].
        intros Hok. by rewrite IH3. }
      destruct (bool_decide (cur ≠ None)) eqn:Hcur.
      * apply bool_decide_eq_true in Hcur.
        destruct (commit_batch_cases t batch s) as [[s' Hc]|[e Hc]].
        -- assert (Hinner :
             bind (commit_batch t batch) (λ _,
               bind (dict_get entity "PartitionKey") (λ pk0,
                 ret ([] : list BatchOp, Some pk0, 0))) s
             = (Ok ([], Some pk, 0), s', [CCommit t batch])).
           { rewrite (bind_ok _ _ _ _ _ _ Hc).
             by rewrite (bind_ok _ _ _ _ _ _ (dict_get_Some _ _ _ _ Hpk)). }
           rewrite (bind_ok _ _ _ _ _ _ Hinner).
           cbn -[delete_loop bind dict_get committed].
           apply (Hstart s' [CCommit t batch]).
           ++ cbn. constructor; [|constructor]. specialize (Hsome Hcur). lia.
           ++ cbn. apply app_nil_r.
        -- rewrite (bind_raise _ _ _ _ _ _ (bind_raise _ _ _ _ _ _ Hc)).
           cbn.
           split; [constructor|]. split; [apply prefix_nil | done].
      * apply bool_decide_eq_false in Hcur.
        assert (cur = None) as -> by (destruct cur; [by destruct Hcur | done]).
        assert (batch = []) as ->.
        { apply length_zero_iff_nil. specialize (Hnone eq_refl). lia. }
        assert (Hinner :
          bind (ret tt) (λ _,
            bind (dict_get entity "PartitionKey") (λ pk0,
              ret ([] : list BatchOp, Some pk0, 0))) s
          = (Ok ([], Some pk, 0), s, [])).
        { rewrite bind_ret.
          by rewrite (bind_ok _ _ _ _ _ _ (dict_get_Some _ _ _ _ Hpk)). }
        rewrite (bind_ok _ _ _ _ _ _ Hinner).
        cbn -[delete_loop bind dict_get committed].
        apply (Hstart s []); [constructor | done].
    + (* same key, room left: accumulate *)
      apply orb_false_iff in Hflush as [Hkey Hfull].
      apply bool_decide_eq_false in Hkey.
      assert (cur = Some pk) as -> by (by destruct (decide (cur = Some pk)); [|destruct Hkey]).
      apply Nat.eqb_neq in Hfull.
      rewrite bind_ret.
      rewrite (bind_ok _ _ _ _ _ _ (dict_get_Some _ _ _ _ Hpk)). cbn [app].
      destruct (entity !! "RowKey") as [rk|] eqn:Hrk.
      2:{ rewrite (bind_raise _ _ _ _ _ _ (dict_get_None _ _ _ Hrk)). cbn.
          split; [constructor|]. split; [apply prefix_nil | done]. }
      rewrite (bind_ok _ _ _ _ _ _ (dict_get_Some _ _ _ _ Hrk)).
      cbn -[delete_loop committed].
      destruct (IH (batch ++ [OpDelete pk rk]) (Some pk) (n + 1) s) as (IH1 & IH2 & IH3).
      { rewrite length_app. simpl. lia. }
      { lia. }
      { done. }
      { lia. }
      rewrite <- (assoc_L (++)) in IH2, IH3.
      rewrite (Hop rk eq_refl). cbn [map]. done.
Qed.

End LoopFacts.

(** ** Ensuring the table, and the writers as a whole *)

Module WriterFacts.
Import RunFacts.

Lemma table_exists_run t s :
  table_exists t s = (Ok (bool_decide (is_Some (tables s !! t))), s, [CExists t]).
Proof. reflexivity. Qed.

Lemma create_table_run t s :
  ∃ l, create_table t s = (Ok tt, ensured t s, l) ∧ committed l = [] ∧
       inserted l = [] ∧ updated l = [] ∧
       effects l = (if bool_decide (is_Some (tables s !! t)) then [] else [CCreateTable t]).
Proof.
  unfold create_table. rewrite (bind_ok _ _ _ _ _ _ (table_exists_run t s)).
  unfold ensured, Service.create_table, ret.
  destruct (tables s !! t) as [tb|] eqn:Ht.
  - rewrite bool_decide_true by eauto. cbn. destruct s. by eexists.
  - rewrite bool_decide_false by (by intros [? ?]). cbn. rewrite Ht. by eexists.
Qed.


(** The first two statements of both writers. *)
Lemma ensure_run {A} t (k : M A) s :
  ∃ l, bind (table_exists t) (λ b,
         bind (if negb b then create_table t else ret tt) (λ _, k)) s
       = (result (k (ensured t s)), final (k (ensured t s)), l ++ calls (k (ensured t s))) ∧
       committed l = [] ∧ inserted l = [] ∧ updated l = [].
Proof.
  rewrite (bind_ok _ _ _ _ _ _ (table_exists_run t s)).
  destruct (tables s !! t) as [tb|] eqn:Ht.
  - rewrite bool_decide_true by eauto. cbn [negb].
    rewrite bind_ret. unfold ensured. rewrite Ht.
    exists [CExists t]. by cbn.
  - rewrite bool_decide_false by (by intros [? ?]). cbn [negb].
    destruct (create_table_run t s) as (l & Hc & H1 & H2 & H3 & _).
    rewrite (bind_ok _ _ _ _ _ _ Hc). cbn [result final calls fst snd].
    exists (CExists t :: l). split; [done|].
    change (CExists t :: l) with ([CExists t] ++ l).
    by rewrite committed_app, inserted_app, updated_app, H1, H2, H3.
Qed.

End WriterFacts.

(** ** The delete loop empties the table *)

Module DeleteFacts.
Import RunFacts.

Lemma key_of_Some (e : Entity) k :
  key_of e = Some k ↔
  e !! "PartitionKey" = Some (VStr k.1) ∧ e !! "RowKey" = Some (VStr k.2).
Proof.
  unfold key_of. destruct k as [p r]. simpl.
  destruct (e !! "PartitionKey") as [[]|], (e !! "RowKey") as [[]|]; naive_solver.
Qed.


Lemma delete_op_key (e : Entity) k : key_of e = Some k → delete_op e = key_op k.
Proof.
  intros [Hp Hr]%key_of_Some. unfold delete_op, key_op, cell. by rewrite Hp, Hr.
Qed.

(** One round of the delete loop. *)
Lemma delete_loop_step t e rest batch cur n s :
  delete_loop t (e :: rest) batch cur n s =
    match e !! "PartitionKey" with
    | None => (Raise (KeyError "PartitionKey"), s, [])
    | Some pk =>
        if bool_decide (cur ≠ Some pk) || (n =? 100)
        then bind (if bool_decide (cur ≠ None) then commit_batch t batch else ret tt)
               (λ _, match e !! "RowKey" with
                     | None => raise (KeyError "RowKey")
                     | Some rk => delete_loop t rest [OpDelete pk rk] (Some pk) 1
                     end) s
        else match e !! "RowKey" with
             | None => (Raise (KeyError "RowKey"), s, [])
             | Some rk => delete_loop t rest (batch ++ [OpDelete pk rk]) cur (n + 1) s
             end
    end.
Proof.
  cbn [delete_loop].
  destruct (e !! "PartitionKey") as [pk|] eqn:Hpk.
  2:{ by rewrite (bind_raise _ _ _ _ _ _ (dict_get_None _ _ _ Hpk)). }
  rewrite (bind_pure _ _ _ _ (dict_get_Some _ _ _ _ Hpk)).
  assert (Htail : ∀ s1 b c m,
    bind (dict_get e "PartitionKey") (λ pk0,
      bind (dict_get e "RowKey") (λ rk,
        delete_loop t rest (b ++ [OpDelete pk0 rk]) c m)) s1
    = match e !! "RowKey" with
      | None => (Raise (KeyError "RowKey"), s1, [])
      | Some rk => delete_loop t rest (b ++ [OpDelete pk rk]) c m s1
      end).
  { intros s1 b c m.
    rewrite (bind_pure _ _ _ _ (dict_get_Some _ _ _ _ Hpk)).
    destruct (e !! "RowKey") as [rk|] eqn:Hrk.
    - by rewrite (bind_pure _ _ _ _ (dict_get_Some _ _ _ _ Hrk)).
    - by rewrite (bind_raise _ _ _ _ _ _ (dict_get_None _ _ _ Hrk)). }
  destruct (bool_decide (cur ≠ Some pk) || (n =? 100)).
  - assert (Hreset : ∀ s1, bind (dict_get e "PartitionKey") (λ pk0,
        ret ([] : list BatchOp, Some pk0, 0)) s1 = (Ok ([], Some pk, 0), s1, [])).
    { intros s1. by rewrite (bind_pure _ _ _ _ (dict_get_Some _ _ _ _ Hpk)). }
    destruct (bool_decide (cur ≠ None)).
    + destruct (LoopFacts.commit_batch_cases t batch s) as [[s' Hc]|[err Hc]].
      * assert (Hin : bind (commit_batch t batch) (λ _,
            bind (dict_get e "PartitionKey") (λ pk0,
              ret ([] : list BatchOp, Some pk0, 0))) s
          = (Ok ([], Some pk, 0), s', [CCommit t batch])).
        { rewrite (bind_ok _ _ _ _ _ _ Hc), Hreset. by cbn. }
        rewrite (bind_ok _ _ _ _ _ _ Hin), (bind_ok _ _ _ _ _ _ Hc).
        rewrite (Htail s' [] (Some pk) (0 + 1)).
        by destruct (e !! "RowKey").
      * rewrite (bind_raise _ _ _ _ _ _ (bind_raise _ _ _ _ _ _ Hc)).
        by rewrite (bind_raise _ _ _ _ _ _ Hc).
    + assert (Hin : bind (ret tt) (λ _,
            bind (dict_get e "PartitionKey") (λ pk0,
              ret ([] : list BatchOp, Some pk0, 0))) s
          = (Ok ([], Some pk, 0), s, [])).
      { by rewrite bind_ret, Hreset. }
      rewrite (bind_pure _ _ _ _ Hin), bind_ret.
      rewrite (Htail s [] (Some pk) (0 + 1)).
      by destruct (e !! "RowKey").
  - rewrite bind_ret. apply Htail.
Qed.

Lemma apply_ops_deletes now ks : ∀ tb,
  NoDup ks → (∀ k, k ∈ ks → is_Some (tb !! k)) →
  apply_ops now tb (map key_op ks) = Ok (foldr delete tb ks, now).
Proof.
  induction ks as [|k ks IH]; intros tb Hnd Hin; [done|].
  inversion_clear Hnd as [|?? Hk Hnd'].
  cbn [map apply_ops key_op]. unfold remove.
  destruct (Hin k) as [e He]; [left|]. destruct k as [p r]. simpl.
  rewrite He. rewrite IH; [|done|].
  - by rewrite delete_foldr_delete.
  - intros k' Hk'. rewrite lookup_delete_ne by (intros <-; done).
    apply Hin. by right.
Qed.

Lemma batch_valid_deletes ks p :
  length ks ≤ 100 → (∀ k, k ∈ ks → k.1 = p) → batch_valid (map key_op ks) = true.
Proof.
  intros Hlen Hp. unfold batch_valid. rewrite length_map.
  apply andb_true_intro. split; [by apply Nat.leb_le|].
  destruct ks as [|k ks]; [done|]. cbn [map].
  apply forallb_forall. intros op [k' [<- Hk']]%in_map_iff.
  apply bool_decide_eq_true. simpl.
  rewrite (Hp k) by left. rewrite (Hp k'); [done|]. right. by apply list_elem_of_In.
Qed.

Lemma commit_deletes t ks p s tb :
  tables s !! t = Some tb → NoDup ks → (∀ k, k ∈ ks → is_Some (tb !! k)) →
  length ks ≤ 100 → (∀ k, k ∈ ks → k.1 = p) →
  commit_batch t (map key_op ks) s =
    (Ok tt, {| tables := <[t := foldr delete tb ks]> (tables s); clock := clock s |},
     [CCommit t (map key_op ks)]).
Proof.
  intros Ht Hnd Hin Hlen Hp. unfold commit_batch, on_table. rewrite Ht.
  rewrite (batch_valid_deletes ks p) by done.
  by rewrite apply_ops_deletes.
Qed.

Lemma lookup_foldr_delete_dec (tb : gmap (string * string) Entity) ks k :
  foldr delete tb ks !! k = if decide (k ∈ ks) then None else tb !! k.
Proof.
  case_decide; [by apply lookup_foldr_delete | by apply lookup_foldr_delete_not_elem_of].
Qed.

Lemma foldr_delete_app_swap (tb : gmap (string * string) Entity) a b :
  foldr delete (foldr delete tb a) b = foldr delete tb (a ++ b).
Proof.
  apply map_eq. intros k. rewrite !lookup_foldr_delete_dec.
  repeat case_decide; try done; set_solver.
Qed.

Lemma store_eta s : {| tables := tables s; clock := clock s |} = s.
Proof. by destruct s. Qed.

(** The delete loop, started with the pending keys [pend] in its batch
    and the scanned entities [rest] ahead, deletes all of them. *)
Lemma delete_loop_purges t (rest : list ((string * string) * Entity)) :
  ∀ (pend : list (string * string)) cur s tb,
  tables s !! t = Some tb →
  NoDup (pend ++ rest.*1) →
  (∀ k, k ∈ pend ++ rest.*1 → is_Some (tb !! k)) →
  Forall (λ ke, key_of ke.2 = Some ke.1) rest →
  length pend ≤ 100 →
  (∀ k, k ∈ pend → cur = Some (VStr k.1)) →
  (cur = None → pend = []) →
  let r := delete_loop t rest.*2 (map key_op pend) cur (length pend) s in
  result r = Ok tt ∧
  final r = {| tables := <[t := foldr delete tb (pend ++ rest.*1)]> (tables s);
               clock := clock s |} ∧
  (pend = [] → rest = [] → calls r = []).
Proof.
  induction rest as [|[k e] rest IH];
    intros pend cur s tb Ht Hnd Hin Hkeys Hlen Hcur Hnone.
  - cbn [fmap list_fmap delete_loop]. rewrite app_nil_r in *.
    destruct pend as [|k0 pend].
    + cbn. rewrite insert_id by done. by rewrite store_eta.
    + cbn [length]. replace (0 <? S (length pend)) with true by done.
      rewrite (commit_deletes t (k0 :: pend) k0.1 s tb); [done|done|done|done|..].
      * done.
      * intros k Hk. pose proof (Hcur k Hk) as H1.
        pose proof (Hcur k0 ltac:(left)) as H2. congruence.
  - cbn [fmap list_fmap fst snd]. cbn [fmap list_fmap fst snd] in Hnd, Hin.
    inversion_clear Hkeys as [|?? Hk Hkeys']. cbn [fst snd] in Hk.
    apply key_of_Some in Hk as [Hp Hr].
    rewrite delete_loop_step, Hp, Hr.
    assert (Hnd1 : NoDup (k :: rest.*1)) by (by apply NoDup_app in Hnd as (_ & _ & ?)).
    assert (Hfresh : ∀ k', k' ∈ k :: rest.*1 → k' ∉ pend).
    { intros k' Hk' Hp'. apply NoDup_app in Hnd as (_ & Hd & _). by apply (Hd k'). }
    assert (Hstart : ∀ s1 tb1 (r1 := delete_loop t rest.*2 [OpDelete (VStr k.1) (VStr k.2)]
                                     (Some (VStr k.1)) 1 s1),
      tables s1 = <[t := tb1]> (tables s) → clock s1 = clock s →
      tb1 = foldr delete tb pend →
      result r1 = Ok tt ∧
      final r1 = {| tables := <[t := foldr delete tb (pend ++ k :: rest.*1)]> (tables s);
                    clock := clock s |}).
    { intros s1 tb1 r1 Hs1 Hc1 ->.
      destruct (IH [k] (Some (VStr k.1)) s1 (foldr delete tb pend)) as (H1 & H2 & _).
      - by rewrite Hs1, lookup_insert_eq.
      - done.
      - intros k' Hk'. rewrite lookup_foldr_delete_not_elem_of by (by apply Hfresh).
        apply Hin. apply elem_of_app. by right.
      - done.
      - simpl. lia.
      - intros k' ->%list_elem_of_singleton. done.
      - done.
      - split; [done|]. subst r1. unfold key_op in H2.
        cbn [map length app] in H2. rewrite H2.
        rewrite Hs1, Hc1, insert_insert_eq.
        by rewrite foldr_delete_app_swap. }
    destruct (bool_decide (cur ≠ Some (VStr k.1)) || (length pend =? 100)) eqn:Hflush.
    + destruct (decide (cur = None)) as [->|Hsome].
      * rewrite bool_decide_false by (by intros H; apply H).
        rewrite bind_ret. rewrite (Hnone eq_refl) in *.
        destruct (Hstart s tb) as [H1 H2].
        { by rewrite insert_id. } { done. } { done. }
        split; [done|]. split; [done|]. done.
      * rewrite bool_decide_true by done.
        assert (Hc := commit_deletes t pend
                        (match cur with Some (VStr p) => p | _ => "" end) s tb Ht
                        ltac:(by apply NoDup_app in Hnd as (? & _ & _))
                        ltac:(intros; apply Hin, elem_of_app; by left) Hlen
                        ltac:(intros k' Hk'; by rewrite (Hcur k' Hk'))).
        rewrite (bind_ok _ _ _ _ _ _ Hc).
        destruct (Hstart {| tables := <[t := foldr delete tb pend]> (tables s);
                            clock := clock s |} (foldr delete tb pend)) as [H1 H2];
          [done..|].
        cbn [result final calls fst snd]. split; [done|]. split; [done|]. done.
    + apply orb_false_iff in Hflush as [Hkey Hfull].
      apply bool_decide_eq_false in Hkey. apply dec_stable in Hkey.
      apply Nat.eqb_neq in Hfull.
      destruct (IH (pend ++ [k]) cur s tb) as (H1 & H2 & _).
      * done.
      * by rewrite <- (assoc_L (++)).
      * intros k'. rewrite <- (assoc_L (++)). apply Hin.
      * done.
      * rewrite length_app. simpl. lia.
      * intros k' [Hk'| ->%list_elem_of_singleton]%elem_of_app; [by apply Hcur | done].
      * intros ->. done.
      * rewrite map_app, length_app in H1, H2. unfold key_op in H1, H2.
        cbn [map length] in H1, H2.
        rewrite <- (assoc_L (++)) in H2. cbn [app] in H2.
        split; [done|]. split; [done|]. done.
Qed.

(** The delete loop issues nothing but batch commits. *)
Lemma delete_loop_calls t entities : ∀ batch cur n s,
  Forall (λ c, ∃ b, c = CCommit t b) (calls (delete_loop t entities batch cur n s)).
Proof.
  induction entities as [|e entities IH]; intros batch cur n s.
  - cbn [delete_loop]. destruct (0 <? n); [|by constructor].
    destruct (LoopFacts.commit_batch_cases t batch s) as [[s' ->]|[err ->]];
      repeat constructor. by eexists.
  - rewrite delete_loop_step.
    destruct (e !! "PartitionKey") as [pk|]; [|by constructor].
    destruct (bool_decide (cur ≠ Some pk) || (n =? 100)).
    + destruct (bool_decide (cur ≠ None)).
      * destruct (LoopFacts.commit_batch_cases t batch s) as [[s' Hc]|[err Hc]].
        -- rewrite (bind_ok _ _ _ _ _ _ Hc). cbn [calls snd].
           constructor; [by eexists|].
           destruct (e !! "RowKey"); [apply IH | by constructor].
        -- rewrite (bind_raise _ _ _ _ _ _ Hc). by constructor.
      * rewrite bind_ret. destruct (e !! "RowKey"); [apply IH | by constructor].
    + destruct (e !! "RowKey"); [apply IH | by constructor].
Qed.

End DeleteFacts.

(** ** Purging a table *)

Lemma delete_all_rows_batch_run t s tb :
  tables s !! t = Some tb → wf_table tb →
  let r := delete_all_rows_batch t s in
  result r = Ok tt ∧
  final r = {| tables := <[t := ∅]> (tables s); clock := clock s |} ∧
  (tb = ∅ → committed (calls r) = []).
Proof.
  intros Ht Hwf. unfold delete_all_rows_batch.
  assert (Hq : Service.query_entities t s = (Ok (map_to_list tb).*2, s, [CQuery t])).
  { unfold Service.query_entities. by rewrite Ht. }
  rewrite (RunFacts.bind_ok _ _ _ _ _ _ Hq). cbn [result final calls fst snd].
  assert (Hnd : NoDup ([] ++ (map_to_list tb).*1)) by apply NoDup_fst_map_to_list.
  assert (Hin : ∀ k, k ∈ [] ++ (map_to_list tb).*1 → is_Some (tb !! k)).
  { intros k [[k' e] [-> Hke]]%list_elem_of_fmap.
    apply elem_of_map_to_list in Hke. by exists e. }
  assert (Hkeys : Forall (λ ke, key_of ke.2 = Some ke.1) (map_to_list tb)).
  { apply Forall_forall. intros [k e] Hke%elem_of_map_to_list. by apply (Hwf k e). }
  destruct (DeleteFacts.delete_loop_purges t (map_to_list tb) [] None s tb
              Ht Hnd Hin Hkeys ltac:(simpl; lia) ltac:(by intros k Hk%not_elem_of_nil)
              ltac:(done)) as (H1 & H2 & H3).
  cbn [map length app] in H1, H2, H3. split; [done|]. split.
  - rewrite H2. do 2 f_equal. apply map_eq. intros k.
    rewrite DeleteFacts.lookup_foldr_delete_dec, lookup_empty.
    case_decide as Hk; [done|].
    destruct (tb !! k) as [e|] eqn:He; [|done].
    exfalso. apply Hk. apply list_elem_of_fmap. exists (k, e).
    split; [done|]. by apply elem_of_map_to_list.
  - intros ->. rewrite map_to_list_empty in H3 |- *.
    by rewrite (H3 eq_refl eq_refl).
Qed.

(** C7. On a table of a well-formed store [delete_all_rows_batch]
    completes and leaves the table empty, so that a full scan afterwards
    returns no entity; and on an empty table it completes without
    committing any batch. *)
Theorem delete_all_rows_batch_exhaustive (t : string) (s : Store)
    (tb : gmap (string * string) Entity) :
  tables s !! t = Some tb → wf_table tb →
  let r := delete_all_rows_batch t s in
  result r = Ok tt ∧
  tables (final r) !! t = Some ∅ ∧
  result (Service.query_entities t (final r)) = Ok [] ∧
  (result (Service.query_entities t s) = Ok [] → committed (calls r) = []).
Proof.
  intros Ht Hwf r.
  destruct (delete_all_rows_batch_run t s tb Ht Hwf) as (H1 & H2 & H3).
  fold r in H1, H2, H3.
  assert (Hf : tables (final r) !! t = Some ∅).
  { rewrite H2. simpl. apply lookup_insert_eq. }
  split; [done|]. split; [done|]. split.
  - unfold Service.query_entities. rewrite Hf. by rewrite map_to_list_empty.
  - unfold Service.query_entities. rewrite Ht. unfold result. simpl.
    intros Hscan. apply H3.
    apply map_to_list_empty_iff.
    destruct (map_to_list tb); [done | by simplify_eq/=].
Qed.

Lemma delete_all_rows_batch_exhaustive_witness :
  let s := store_of "t" two_partitions in
  result (delete_all_rows_batch "t" s) = Ok tt ∧
  tables (final (delete_all_rows_batch "t" s)) !! "t" = Some ∅.
Proof.
  intros s.
  destruct (delete_all_rows_batch_exhaustive "t" s
              (default ∅ (tables s !! "t"))) as (H1 & H2 & _).
  - vm_compute. reflexivity.
  - apply (bool_decide_unpack _). vm_compute. exact I.
  - split; [exact H1 | exact H2].
Defined.

(** ** The write loop and partition keys *)

(** C1 (where the code departs from it). Two rows of two different
    partitions, written by [write_df_to_azure_table_batch]: the loop does
    not flush when the PartitionKey changes but puts both inserts into
    one batch, which the service rejects, so the call raises and nothing
    is written; whereas [delete_all_rows_batch] on the same two entities
    commits one batch per partition. *)
Theorem write_batch_mixes_partitions :
  let s := {| tables := {["t" := ∅]}; clock := 0 |} in
  write_df_to_azure_table_batch "t" (from_records two_partitions) false s
    = (Raise (BatchConstraintViolation (map OpInsert two_partitions)), s, [CExists "t"]) ∧
  map op_partition (map OpInsert two_partitions) = [Some (VStr "a"); Some (VStr "b")] ∧
  map (map op_partition)
    (committed (calls (delete_all_rows_batch "t" (store_of "t" two_partitions))))
    = [[Some (VStr "a")]; [Some (VStr "b")]].
Proof. vm_compute. repeat split; reflexivity. Qed.

(** ** Renaming a table: the first two steps *)

Module RenameFacts.
Import RunFacts.

Lemma effects_app l1 l2 : effects (l1 ++ l2) = effects l1 ++ effects l2.
Proof. apply filter_app. Qed.

Lemma delete_table_if_exists_run t s :
  ∃ l, delete_table_if_exists t s
       = (Ok tt, {| tables := delete t (tables s); clock := clock s |}, l) ∧
       effects l = (if bool_decide (is_Some (tables s !! t)) then [CDeleteTable t] else []) ∧
       committed l = [] ∧ inserted l = [] ∧ updated l = [].
Proof.
  unfold delete_table_if_exists, Service.exists_, Service.delete_table, bind, ret.
  destruct (tables s !! t) as [tb|] eqn:Ht.
  - rewrite !bool_decide_true by eauto. by eexists.
  - rewrite !bool_decide_false by (by intros [? ?]).
    rewrite delete_id by done. rewrite DeleteFacts.store_eta. by eexists.
Qed.

(** After the first two steps the destination is a fresh, empty table. *)
Lemma fresh_destination {A} new (k : M A) s :
  let s2 := {| tables := <[new := ∅]> (tables s); clock := clock s |} in
  ∃ l, bind (delete_table_if_exists new) (λ _, bind (create_table new) (λ _, k)) s
       = (result (k s2), final (k s2), l ++ calls (k s2)) ∧
       effects l = (if bool_decide (is_Some (tables s !! new))
                    then [CDeleteTable new] else []) ++ [CCreateTable new] ∧
       committed l = [] ∧ inserted l = [] ∧ updated l = [].
Proof.
  intros s2.
  destruct (delete_table_if_exists_run new s) as (l1 & H1 & He1 & Hc1 & Hi1 & Hu1).
  rewrite (bind_ok _ _ _ _ _ _ H1).
  destruct (WriterFacts.create_table_run new
              {| tables := delete new (tables s); clock := clock s |})
    as (l2 & H2 & Hc2 & Hi2 & Hu2 & He2).
  rewrite (bind_ok _ _ _ _ _ _ H2). cbn [result final calls fst snd].
  assert (Hs2 : ensured new {| tables := delete new (tables s); clock := clock s |} = s2).
  { unfold ensured, s2. simpl. rewrite lookup_delete_eq. by rewrite insert_delete_eq. }
  rewrite Hs2. exists (l1 ++ l2). rewrite <- (assoc_L (++)). split; [done|].
  rewrite effects_app, committed_app, inserted_app, updated_app.
  rewrite He1, He2, Hc1, Hc2, Hi1, Hi2, Hu1, Hu2. simpl.
  rewrite lookup_delete_eq.
  by rewrite (bool_decide_false (is_Some None)) by apply is_Some_None.
Qed.

End RenameFacts.

(** C10. When the source table exists and its scan yields no entity,
    [rename_table] raises KeyError for the Timestamp column that the
    empty frame does not have; it does so after the destination has been
    deleted if it existed and freshly created, and before the source is
    deleted: the destination is left empty, the source still there, and
    the only effects on the store are that delete and that create. *)
Theorem rename_table_empty_source (old_name new_name : string) (s : Store) :
  tables s !! old_name = Some ∅ →
  let r := rename_table old_name new_name s in
  result r = Raise (KeyError "Timestamp") ∧
  final r = {| tables := <[new_name := ∅]> (tables s); clock := clock s |} ∧
  tables (final r) !! new_name = Some ∅ ∧
  tables (final r) !! old_name = Some ∅ ∧
  effects (calls r) =
    (if bool_decide (is_Some (tables s !! new_name))
     then [CDeleteTable new_name] else []) ++ [CCreateTable new_name].
Proof.
  intros Hold. unfold rename_table.
  destruct (RenameFacts.fresh_destination new_name
    (bind (query_entities old_name) (λ entities,
       bind (or_key_error "Timestamp" (drop_column entities "Timestamp")) (λ entities0,
         bind (write_df_to_azure_table new_name entities0 true) (λ _,
           delete_table_if_exists old_name)))) s) as (l & -> & He & _).
  set (s2 := {| tables := <[new_name := ∅]> (tables s); clock := clock s |}).
  assert (Hold2 : tables s2 !! old_name = Some ∅).
  { unfold s2. simpl. destruct (decide (new_name = old_name)) as [->|Hne].
    - by rewrite lookup_insert_eq.
    - by rewrite lookup_insert_ne. }
  assert (Hq : query_entities old_name s2 = (Ok (from_records []), s2, [CQuery old_name])).
  { unfold query_entities, Service.query_entities, bind, ret. rewrite Hold2.
    by rewrite map_to_list_empty. }
  rewrite (RunFacts.bind_ok _ _ _ _ _ _ Hq).
  cbn [result final calls fst snd]. cbn.
  rewrite RenameFacts.effects_app, He. cbn. rewrite app_nil_r.
  split; [done|]. split; [done|]. split; [apply lookup_insert_eq|]. done.
Qed.

Lemma rename_table_empty_source_witness :
  let s := store_of "T" [] in
  result (rename_table "T" "T2" s) = Raise (KeyError "Timestamp") ∧
  tables (final (rename_table "T" "T2" s)) !! "T2" = Some ∅ ∧
  tables (final (rename_table "T" "T2" s)) !! "T" = Some ∅.
Proof.
  intros s.
  destruct (rename_table_empty_source "T" "T2" s) as (H1 & _ & H3 & H4 & _).
  - vm_compute. reflexivity.
  - repeat split; assumption.
Defined.

(** ** Rows without keys *)

Module RejectFacts.
Import RunFacts.

Lemma bind_ext {A B} (m : M A) (k1 k2 : A → M B) s :
  (∀ a s', k1 a s' = k2 a s') → bind m k1 s = bind m k2 s.
Proof.
  intros H. unfold bind. destruct (m s) as [[[a|e] s1] l1]; [|done]. by rewrite H.
Qed.

Lemma lookup_row_dict cols (r : gmap string value) c :
  row_dict cols r !! c = if decide (c ∈ cols) then Some (cell r c) else None.
Proof.
  unfold row_dict. induction cols as [|c' cols IH]; simpl.
  - apply lookup_empty.
  - destruct (decide (c' = c)) as [->|Hne].
    + rewrite lookup_insert_eq. by rewrite decide_True by left.
    + rewrite lookup_insert_ne by done. rewrite IH.
      destruct (decide (c ∈ cols)) as [Hin|Hin].
      * by rewrite decide_True by (by right).
      * rewrite decide_False; [done|]. by intros [->|?]%elem_of_cons.
Qed.

(** A row of a frame that lacks a key column fails to become an entity. *)
Lemma make_entity_missing cols (r : gmap string value) s :
  "PartitionKey" ∉ cols ∨ "RowKey" ∉ cols →
  make_entity (row_dict cols r) s = (Raise (KeyError (missing_key cols)), s, []).
Proof.
  intros Hmiss. rewrite make_entity_run, !lookup_row_dict. unfold missing_key.
  destruct (decide ("PartitionKey" ∈ cols)); [|done].
  destruct (decide ("RowKey" ∈ cols)); [|done]. naive_solver.
Qed.

Lemma commits_only t l :
  Forall (λ c, ∃ b, c = CCommit t b) l → inserted l = [] ∧ updated l = [].
Proof.
  induction 1 as [|c l [b ->] _ [IH1 IH2]]; [done|]. simpl. by rewrite IH1, IH2.
Qed.

Lemma delete_all_rows_batch_calls t s :
  let r := delete_all_rows_batch t s in
  inserted (calls r) = [] ∧ updated (calls r) = [] ∧
  Forall (Forall is_delete_op) (committed (calls r)).
Proof.
  unfold delete_all_rows_batch, Service.query_entities, bind.
  destruct (tables s !! t) as [tb|]; [|by repeat split; constructor].
  set (entities := map snd (map_to_list tb)).
  pose proof (DeleteFacts.delete_loop_calls t entities [] None 0 s) as Hc.
  destruct (LoopFacts.delete_loop_batches t entities [] None 0 s eq_refl
              ltac:(lia) ltac:(done) ltac:(done)) as (_ & Hpre & _).
  destruct (delete_loop t entities [] None 0 s) as [[r s'] l].
  cbn [calls snd] in *. destruct (commits_only t l Hc) as [Hi Hu].
  cbn. split; [done|]. split; [done|].
  assert (Hall : Forall is_delete_op (concat (committed l))).
  { destruct Hpre as [k Hk]. cbn [app] in Hk.
    assert (Hd : Forall is_delete_op (map delete_op entities)).
    { apply Forall_forall. intros op [e [-> _]]%list_elem_of_fmap. done. }
    rewrite Hk in Hd. by apply Forall_app in Hd as [? _]. }
  by apply Forall_concat.
Qed.

End RejectFacts.

(** C5. When the frame handed to either writer lacks the PartitionKey
    or the RowKey column and has at least one row, the call raises: it
    behaves exactly as the code whose write loop is replaced by raising
    KeyError for the missing key, so that after the table has been
    ensured and, if asked, truncated, no entity is built, no insert is
    issued and every committed batch holds only deletes of the
    truncation. *)
Theorem missing_key_rejected (t : string) (df : DataFrame) (truncate : bool) (s : Store) :
  "PartitionKey" ∉ columns df ∨ "RowKey" ∉ columns df →
  records df ≠ [] →
  let rejected : M unit :=
    bind (table_exists t) (λ b,
      bind (if negb b then create_table t else ret tt) (λ _,
        bind (if truncate then delete_all_rows_batch t else ret tt) (λ _,
          raise (KeyError (missing_key (columns df)))))) in
  let rb := write_df_to_azure_table_batch t df truncate s in
  let r1 := write_df_to_azure_table t df truncate s in
  rb = rejected s ∧ r1 = rejected s ∧
  (∃ e, result (rejected s) = Raise e) ∧
  inserted (calls (rejected s)) = [] ∧
  Forall (Forall is_delete_op) (committed (calls (rejected s))).
Proof.
  intros Hmiss Hrows rejected rb r1.
  assert (Hdata : ∃ r rest, to_dict_records df = row_dict (columns df) r :: rest).
  { unfold to_dict_records. destruct (records df) as [|r rest]; [done|]. by eexists _, _. }
  destruct Hdata as (r & rest & Hdata).
  split; [|split].
  - unfold rb, rejected, write_df_to_azure_table_batch.
    apply RejectFacts.bind_ext. intros b s1.
    apply RejectFacts.bind_ext. intros [] s2.
    apply RejectFacts.bind_ext. intros [] s3.
    rewrite Hdata. cbn [write_loop].
    by rewrite (RunFacts.bind_raise _ _ _ _ _ _ (RejectFacts.make_entity_missing _ _ _ Hmiss)).
  - unfold r1, rejected, write_df_to_azure_table.
    apply RejectFacts.bind_ext. intros b s1.
    apply RejectFacts.bind_ext. intros [] s2.
    apply RejectFacts.bind_ext. intros [] s3.
    rewrite Hdata. cbn [insert_loop].
    by rewrite (RunFacts.bind_raise _ _ _ _ _ _ (RejectFacts.make_entity_missing _ _ _ Hmiss)).
  - unfold rejected.
    destruct (WriterFacts.ensure_run t
      (bind (if truncate then delete_all_rows_batch t else ret tt) (λ _,
         raise (KeyError (missing_key (columns df))) : M unit)) s)
      as (l & -> & Hc & Hi & _).
    cbn [result final calls fst snd].
    rewrite RunFacts.inserted_app, RunFacts.committed_app, Hc, Hi. cbn [app].
    destruct truncate.
    + destruct (RejectFacts.delete_all_rows_batch_calls t (ensured t s)) as (Hi' & _ & Hd').
      unfold bind. destruct (delete_all_rows_batch t (ensured t s)) as [[[[]|e] s'] l'];
        cbn in *.
      * rewrite app_nil_r. eauto.
      * eauto.
    + rewrite RunFacts.bind_ret. cbn. eauto.
Qed.

Lemma missing_key_rejected_witness :
  let s := store_of "t" two_partitions in
  let df := {| columns := ["x"]; records := [ {["x" := VInt 1]} ] |} in
  result (write_df_to_azure_table_batch "t" df true s) = Raise (KeyError "PartitionKey") ∧
  result (write_df_to_azure_table "t" df true s) = Raise (KeyError "PartitionKey").
Proof.
  intros s df.
  destruct (missing_key_rejected "t" df true s) as (H1 & H2 & _).
  - left. vm_compute. intros H. inversion H as [|??? H']. inversion H'.
  - discriminate.
  - rewrite H1, H2. vm_compute. split; reflexivity.
Defined.

(** ** Inserting entities *)

Module InsertFacts.
Import RunFacts.







Lemma added_keys tb tb' es :
  added tb tb' es → ∃ ks, Forall2 (λ e k, key_of e = Some k) es ks ∧ NoDup ks ∧
                          (∀ k, k ∈ ks → tb !! k = None).
Proof. intros (ks & ? & ? & ? & _). eauto. Qed.




End InsertFacts.

(** ** Running the batched writer twice *)

Module TwiceFacts.
Import RunFacts.









End TwiceFacts.



(** ** Column operations *)

Module ColumnFacts.
Import RunFacts.

Lemma filter_ne_delete (c : string) (e : Entity) :
  filter (λ kv : string * value, kv.1 ≠ c) e = delete c e.
Proof.
  apply map_eq. intros i. apply option_eq. intros x.
  rewrite map_lookup_filter_Some, lookup_delete_Some. naive_solver.
Qed.

Lemma bind_cong {A B} (m1 m2 : M A) (k1 k2 : A → M B) s :
  m1 s = m2 s → (∀ a s', k1 a s' = k2 a s') → bind m1 k1 s = bind m2 k2 s.
Proof.
  intros Hm Hk. unfold bind. rewrite Hm.
  destruct (m2 s) as [[[a|e] s1] l1]; [|done]. by rewrite Hk.
Qed.

Lemma copy_loop_rewrite t old new l : ∀ s,
  copy_loop t l old new s = rewrite_loop t l (with_copy old new) s.
Proof.
  induction l as [|e l IH]; intros s; [done|]. cbn [copy_loop rewrite_loop].
  unfold with_copy at 1.
  assert (Hstep : (if bool_decide (is_Some (e !! old))
                   then bind (dict_get e old) (λ v, update_entity t (<[new := v]> e))
                   else ret tt) s
                  = match (λ v, <[new := v]> e) <$> e !! old with
                    | Some new_entity => update_entity t new_entity
                    | None => ret tt
                    end s).
  { destruct (e !! old) as [v|] eqn:He; simpl.
    - by rewrite (bind_pure _ _ _ _ (dict_get_Some _ _ _ _ He)).
    - done. }
  apply bind_cong; [exact Hstep | intros _ s'; apply IH].
Qed.

Lemma drop_loop_rewrite t c l : ∀ s,
  drop_loop t l c s = rewrite_loop t l (without c) s.
Proof.
  induction l as [|e l IH]; intros s; [done|]. cbn [drop_loop rewrite_loop].
  unfold without at 1. rewrite filter_ne_delete.
  apply bind_cong; [by destruct (bool_decide (is_Some (e !! c))) | intros _ s'; apply IH].
Qed.

Lemma update_entity_run (t : string) (e' : Entity) (k : string * string) (s : Store)
    (tb : gmap (string * string) Entity) (e : Entity) :
  tables s !! t = Some tb → key_of e' = Some k → tb !! k = Some e →
  update_entity t e' s =
    (Ok tt, {| tables := <[t := <[k := stamp (clock s) e']> tb]> (tables s);
               clock := S (clock s) |}, [CUpdate t e']).
Proof.
  intros Ht Hk He. unfold update_entity, on_table, put_existing.
  by rewrite Ht, Hk, He.
Qed.

(** The shared loop, run over scanned entities that the table still
    holds, rewrites exactly those that [f] maps to an entity. *)
Lemma rewrite_loop_run (t : string) (f : Entity → option Entity)
    (l : list ((string * string) * Entity)) :
  (∀ e e', f e = Some e' → key_of e' = key_of e) →
  ∀ (s : Store) (tb : gmap (string * string) Entity),
  tables s !! t = Some tb → NoDup l.*1 →
  Forall (λ ke, tb !! ke.1 = Some ke.2 ∧ key_of ke.2 = Some ke.1) l →
  let r := rewrite_loop t l.*2 f s in
  result r = Ok tt ∧
  updated (calls r) = omap f l.*2 ∧
  ∃ tb', tables (final r) = <[t := tb']> (tables s) ∧
    dom tb' = dom tb ∧
    (∀ k, k ∉ l.*1 → tb' !! k = tb !! k) ∧
    Forall (λ ke, match f ke.2 with
                  | Some e' => ∃ n, tb' !! ke.1 = Some (stamp n e')
                  | None => tb' !! ke.1 = Some ke.2
                  end) l.
Proof.
  intros Hf. induction l as [|[k e] l IH]; intros s tb Ht Hnd Hall.
  - cbn. split; [done|]. split; [done|]. exists tb.
    rewrite insert_id by done. by repeat split.
  - cbn [fmap list_fmap fst snd] in *. cbn [rewrite_loop omap list_omap].
    inversion_clear Hnd as [|?? Hk Hnd'].
    inversion_clear Hall as [|?? [Hke Hkey] Hall']. cbn [fst snd] in Hke, Hkey.
    assert (Hother : ∀ k0 e0, (k0, e0) ∈ l → k0 ≠ k).
    { intros k0 e0 Hin ->. apply Hk. apply list_elem_of_fmap. by exists (k, e0). }
    destruct (f e) as [e'|] eqn:Hfe.
    + assert (Hk' : key_of e' = Some k) by (by rewrite (Hf e e')).
      rewrite (bind_ok _ _ _ _ _ _ (update_entity_run t e' k s tb e Ht Hk' Hke)).
      cbn [result final calls fst snd].
      set (tb1 := <[k := stamp (clock s) e']> tb).
      set (s1 := {| tables := <[t := tb1]> (tables s); clock := S (clock s) |}).
      destruct (IH s1 tb1) as (H1 & H2 & tb' & H3 & H4 & H5 & H6).
      * apply lookup_insert_eq.
      * done.
      * apply Forall_forall. intros [k0 e0] Hin.
        rewrite Forall_forall in Hall'. destruct (Hall' _ Hin) as [H0 H0'].
        split; [|done]. unfold tb1. cbn [fst snd] in *.
        rewrite lookup_insert_ne; [done|]. intros <-. by eapply Hother.
      * split; [done|]. split.
        { change (CUpdate t e' :: ?x) with ([CUpdate t e'] ++ x).
          rewrite updated_app. cbn. by rewrite H2. }
        exists tb'. split; [|split; [|split]].
        -- rewrite H3. simpl. apply insert_insert_eq.
        -- rewrite H4. unfold tb1. apply dom_insert_lookup_L. eauto.
        -- intros k0 Hk0. apply not_elem_of_cons in Hk0 as [Hne Hk0].
           rewrite (H5 k0 Hk0). unfold tb1. by rewrite lookup_insert_ne.
        -- constructor; [|done]. cbn [fst snd]. rewrite Hfe.
           exists (clock s). rewrite (H5 k Hk). unfold tb1. apply lookup_insert_eq.
    + rewrite bind_ret.
      destruct (IH s tb Ht Hnd' Hall') as (H1 & H2 & tb' & H3 & H4 & H5 & H6).
      split; [done|]. split; [done|].
      exists tb'. split; [done|]. split; [done|]. split.
      * intros k0 Hk0. apply not_elem_of_cons in Hk0 as [Hne Hk0]. by apply H5.
      * constructor; [|done]. cbn [fst snd]. rewrite Hfe. by rewrite (H5 k Hk).
Qed.

Lemma key_of_insert_other (e : Entity) c v :
  c ≠ "PartitionKey" → c ≠ "RowKey" → key_of (<[c := v]> e) = key_of e.
Proof. intros H1 H2. unfold key_of. by rewrite !lookup_insert_ne. Qed.

Lemma key_of_delete_other (e : Entity) c :
  c ≠ "PartitionKey" → c ≠ "RowKey" → key_of (delete c e) = key_of e.
Proof. intros H1 H2. unfold key_of. by rewrite !lookup_delete_ne. Qed.

(** A full pass of the shared loop over the scan of a table. *)
Lemma rewrite_pass (t : string) (f : Entity → option Entity) (s : Store)
    (tb : gmap (string * string) Entity) :
  (∀ e e', f e = Some e' → key_of e' = key_of e) →
  tables s !! t = Some tb → wf_table tb →
  let r := bind (Service.query_entities t) (λ entities, rewrite_loop t entities f) s in
  result r = Ok tt ∧
  updated (calls r) = omap f (map snd (map_to_list tb)) ∧
  ∃ tb', tables (final r) !! t = Some tb' ∧ rewritten f tb tb'.
Proof.
  intros Hf Ht Hwf.
  assert (Hq : Service.query_entities t s = (Ok (map_to_list tb).*2, s, [CQuery t])).
  { unfold Service.query_entities. by rewrite Ht. }
  rewrite (bind_ok _ _ _ _ _ _ Hq). cbn [result final calls fst snd].
  destruct (rewrite_loop_run t f (map_to_list tb) Hf s tb Ht)
    as (H1 & H2 & tb' & H3 & H4 & H5 & H6).
  { apply NoDup_fst_map_to_list. }
  { apply Forall_forall. intros [k e] Hke%elem_of_map_to_list.
    split; [done|]. by apply (Hwf k e). }
  split; [done|]. split; [by rewrite updated_app, H2|].
  exists tb'. split; [rewrite H3; apply lookup_insert_eq|].
  split; [done|]. intros k e Hke.
  rewrite Forall_forall in H6.
  apply (H6 (k, e)). by apply elem_of_map_to_list.
Qed.

End ColumnFacts.

(** C8 (as the code has it: the claim holds for column names other
    than the reserved ones). On a table of a well-formed store,
    [copy_column] to a destination column that is not reserved and
    [delete_column] of a column that is not reserved complete; they issue
    one update for each scanned entity that has the column and none for
    the others; every entity that lacks the column is left as it was,
    timestamp included; an entity with the column gets the destination
    column with the value of the source column, respectively loses the
    named column, and keeps every other property. *)
Theorem column_ops_rewrite_subset (t : string) (s : Store)
    (tb : gmap (string * string) Entity) (old_column new_column column_name : string) :
  tables s !! t = Some tb → wf_table tb →
  (new_column ∉ reserved →
     let r := copy_column t old_column new_column s in
     result r = Ok tt ∧
     updated (calls r) = omap (with_copy old_column new_column) (map snd (map_to_list tb)) ∧
     ∃ tb', tables (final r) !! t = Some tb' ∧ dom tb' = dom tb ∧
       untouched old_column tb tb' ∧
       ∀ k e v, tb !! k = Some e → e !! old_column = Some v →
         ∃ e', tb' !! k = Some e' ∧ e' !! new_column = Some v ∧
               ∀ c, c ≠ new_column → c ≠ "Timestamp" → e' !! c = e !! c) ∧
  (column_name ∉ reserved →
     let r := delete_column t column_name s in
     result r = Ok tt ∧
     updated (calls r) = omap (without column_name) (map snd (map_to_list tb)) ∧
     ∃ tb', tables (final r) !! t = Some tb' ∧ dom tb' = dom tb ∧
       untouched column_name tb tb' ∧
       ∀ k e, tb !! k = Some e → is_Some (e !! column_name) →
         ∃ e', tb' !! k = Some e' ∧ e' !! column_name = None ∧
               ∀ c, c ≠ column_name → c ≠ "Timestamp" → e' !! c = e !! c).
Proof.
  intros Ht Hwf. split.
  - intros Hnew r.
    assert (new_column ≠ "PartitionKey" ∧ new_column ≠ "RowKey" ∧ new_column ≠ "Timestamp")
      as (Hn1 & Hn2 & Hn3) by (unfold reserved in Hnew; set_solver).
    assert (Hrun : r = bind (Service.query_entities t)
                         (λ entities, rewrite_loop t entities (with_copy old_column new_column)) s).
    { unfold r, copy_column. apply ColumnFacts.bind_cong; [done|].
      intros l s'. apply ColumnFacts.copy_loop_rewrite. }
    destruct (ColumnFacts.rewrite_pass t (with_copy old_column new_column) s tb)
      as (H1 & H2 & tb' & H3 & H4 & H5); [|done|done|].
    { intros e e'. unfold with_copy. destruct (e !! old_column); [|done].
      intros [= <-]. by apply ColumnFacts.key_of_insert_other. }
    rewrite <- Hrun in H1, H2, H3.
    split; [done|]. split; [done|]. exists tb'. split; [done|]. split; [done|]. split.
    + intros k e Hke Hnone. specialize (H5 k e Hke). unfold with_copy in H5.
      by rewrite Hnone in H5.
    + intros k e v Hke Hv. specialize (H5 k e Hke). unfold with_copy in H5.
      rewrite Hv in H5. destruct H5 as [n Hn]. exists (stamp n (<[new_column := v]> e)).
      split; [done|]. unfold stamp. split.
      * rewrite lookup_insert_ne by done. apply lookup_insert_eq.
      * intros c Hc1 Hc2. by rewrite !lookup_insert_ne.
  - intros Hcol r.
    assert (column_name ≠ "PartitionKey" ∧ column_name ≠ "RowKey" ∧ column_name ≠ "Timestamp")
      as (Hn1 & Hn2 & Hn3) by (unfold reserved in Hcol; set_solver).
    assert (Hrun : r = bind (Service.query_entities t)
                         (λ entities, rewrite_loop t entities (without column_name)) s).
    { unfold r, delete_column. apply ColumnFacts.bind_cong; [done|].
      intros l s'. apply ColumnFacts.drop_loop_rewrite. }
    destruct (ColumnFacts.rewrite_pass t (without column_name) s tb)
      as (H1 & H2 & tb' & H3 & H4 & H5); [|done|done|].
    { intros e e'. unfold without. destruct (bool_decide _); [|done].
      intros [= <-]. by apply ColumnFacts.key_of_delete_other. }
    rewrite <- Hrun in H1, H2, H3.
    split; [done|]. split; [done|]. exists tb'. split; [done|]. split; [done|]. split.
    + intros k e Hke Hnone. specialize (H5 k e Hke). unfold without in H5.
      rewrite Hnone in H5. by rewrite bool_decide_false in H5 by apply is_Some_None.
    + intros k e Hke Hv. specialize (H5 k e Hke). unfold without in H5.
      rewrite bool_decide_true in H5 by done. destruct H5 as [n Hn].
      exists (stamp n (delete column_name e)).
      split; [done|]. unfold stamp. split.
      * rewrite lookup_insert_ne by done. apply lookup_delete_eq.
      * intros c Hc1 Hc2. rewrite lookup_insert_ne by done. by rewrite lookup_delete_ne.
Qed.

Lemma column_ops_rewrite_subset_witness :
  let s := store_of "t" cross_keys in
  result (copy_column "t" "x" "y" s) = Ok tt ∧
  result (delete_column "t" "x" s) = Ok tt.
Proof.
  intros s.
  destruct (column_ops_rewrite_subset "t" s (default ∅ (tables s !! "t")) "x" "y" "x")
    as [Hcopy Hdrop].
  - vm_compute. reflexivity.
  - apply (bool_decide_unpack _). vm_compute. exact I.
  - split.
    + apply Hcopy. apply (bool_decide_unpack _). vm_compute. exact I.
    + apply Hdrop. apply (bool_decide_unpack _). vm_compute. exact I.
Defined.

(** C8, as stated, fails: copying the column [x] to the column RowKey
    readdresses the update.  The entity (p, r1) has x = r2, so the update
    that [copy_column] issues for it replaces the entity (p, r2), which
    has no column [x]. *)
Lemma copy_column_touches_entity_without_column :
  let s := store_of "t" cross_keys in
  let r := copy_column "t" "x" "RowKey" s in
  ∃ tb tb',
    tables s !! "t" = Some tb ∧ wf_table tb ∧
    result r = Ok tt ∧ tables (final r) !! "t" = Some tb' ∧
    map key_of (updated (calls r)) = [Some ("p", "r2")] ∧
    ¬ untouched "x" tb tb'.
Proof.
  intros s r.
  exists (default ∅ (tables s !! "t")), (default ∅ (tables (final r) !! "t")).
  split; [vm_compute; reflexivity|].
  split; [apply (bool_decide_unpack _); vm_compute; exact I|].
  split; [vm_compute; reflexivity|].
  split; [vm_compute; reflexivity|].
  split; [vm_compute; reflexivity|].
  intros H.
  assert (H2 := H ("p", "r2") (stamp 1 (ent "p" "r2" []))
                  ltac:(vm_compute; reflexivity) ltac:(vm_compute; reflexivity)).
  vm_compute in H2. discriminate H2.
Qed.

(** ** Renaming a table: the copy *)


Module CopyFacts.
Import RunFacts.







End CopyFacts.

Module RenameCopyFacts.
Import RunFacts.







End RenameCopyFacts.



(** ** Renaming a table: the order of the steps *)

Module StepFacts.
Import RunFacts.

Lemma bind_assoc {A B C} (m : M A) (f : A → M B) (g : B → M C) s :
  bind (bind m f) g s = bind m (λ a, bind (f a) g) s.
Proof.
  unfold bind. destruct (m s) as [[[a|e] s1] l1]; [|done].
  destruct (f a s1) as [[[b|e] s2] l2]; [|done].
  destruct (g b s2) as [[r s3] l3]. by rewrite (assoc_L (++)).
Qed.

Lemma runs_last (m : M unit) s : runs_in_order [m] s (m s).
Proof.
  destruct (m s) as [[[[]|e] s'] l] eqn:Hm.
  - rewrite <- (app_nil_r l). eapply run_next; [exact Hm | constructor].
  - by constructor.
Qed.

Lemma runs_bind (m : M unit) rest (k : M unit) s :
  (∀ s', runs_in_order rest s' (k s')) →
  runs_in_order (m :: rest) s (bind m (λ _, k) s).
Proof.
  intros Hk. unfold bind. destruct (m s) as [[[[]|e] s'] l] eqn:Hm.
  - specialize (Hk s'). destruct (k s') as [[r s''] l'].
    eapply run_next; [exact Hm | exact Hk].
  - by constructor.
Qed.

Lemma rename_table_steps_eq old_name new_name s :
  rename_table old_name new_name s =
    bind (delete_table_if_exists new_name) (λ _,
      bind (create_table new_name) (λ _,
        bind (copy_entities old_name new_name) (λ _,
          delete_table_if_exists old_name))) s.
Proof.
  unfold rename_table, copy_entities.
  apply ColumnFacts.bind_cong; [done|]. intros _ s1.
  apply ColumnFacts.bind_cong; [done|]. intros _ s2.
  rewrite bind_assoc. apply ColumnFacts.bind_cong; [done|]. intros df s3.
  by rewrite bind_assoc.
Qed.

(** Consistency is kept by sequencing. *)
Lemma replay_app l1 l2 s : replay (l1 ++ l2) s = replay l2 (replay l1 s).
Proof. apply foldl_app. Qed.

Lemma consistent_ret {A} (a : A) : consistent (ret a).
Proof. by intros s. Qed.

Lemma consistent_raise {A} e : consistent (raise e : M A).
Proof. by intros s. Qed.

Lemma consistent_bind {A B} (m : M A) (k : A → M B) :
  consistent m → (∀ a, consistent (k a)) → consistent (bind m k).
Proof.
  intros Hm Hk s. unfold bind. specialize (Hm s).
  destruct (m s) as [[[a|e] s1] l1]; [|done].
  specialize (Hk a s1). destruct (k a s1) as [[r s2] l2].
  unfold final, calls in *. simpl in *. by rewrite replay_app, <- Hm.
Qed.

Lemma consistent_if {A} (b : bool) (m1 m2 : M A) :
  consistent m1 → consistent m2 → consistent (if b then m1 else m2).
Proof. by destruct b. Qed.

Lemma consistent_exists t : consistent (Service.exists_ t).
Proof. by intros s. Qed.

Lemma consistent_query t : consistent (Service.query_entities t).
Proof. intros s. unfold Service.query_entities. by destruct (tables s !! t). Qed.

Lemma consistent_create t : consistent (Service.create_table t).
Proof.
  intros s.
  assert (calls (Service.create_table t s) = [CCreateTable t]) as ->; [|done].
  unfold Service.create_table. by destruct (tables s !! t).
Qed.

Lemma consistent_delete_table t : consistent (Service.delete_table t).
Proof. by intros s. Qed.

Lemma consistent_commit t b : consistent (commit_batch t b).
Proof.
  intros s. destruct (LoopFacts.commit_batch_cases t b s) as [[s' H]|[e H]];
    rewrite H; cbn; [|done]. by rewrite H.
Qed.

Lemma consistent_insert t e : consistent (insert_entity t e).
Proof.
  intros s. unfold insert_entity.
  destruct (on_table_cases t (CInsert t e) (λ now tb, apply_ops now tb [OpInsert e]) s)
    as [(tb & tb' & now' & _ & _ & H)|[err H]]; rewrite H; cbn; [|done].
  unfold insert_entity. by rewrite H.
Qed.

Lemma consistent_dict_get d k : consistent (dict_get d k).
Proof. intros s. unfold dict_get. by destruct (d !! k). Qed.

Lemma consistent_or_key_error {A} k (o : option A) : consistent (or_key_error k o).
Proof. intros s. by destruct o. Qed.

Lemma consistent_make_entity row : consistent (make_entity row).
Proof.
  intros s. rewrite make_entity_run.
  by destruct (row !! "PartitionKey"), (row !! "RowKey").
Qed.

Lemma consistent_table_exists t : consistent (table_exists t).
Proof. apply consistent_exists. Qed.

Lemma consistent_create_table t : consistent (create_table t).
Proof.
  apply consistent_bind; [apply consistent_table_exists|]. intros b.
  apply consistent_if; [apply consistent_create | apply consistent_ret].
Qed.

Lemma consistent_delete_table_if_exists t : consistent (delete_table_if_exists t).
Proof.
  apply consistent_bind; [apply consistent_exists|]. intros b.
  apply consistent_if; [apply consistent_delete_table | apply consistent_ret].
Qed.

Lemma consistent_delete_loop t entities : ∀ batch cur n,
  consistent (delete_loop t entities batch cur n).
Proof.
  induction entities as [|e entities IH]; intros batch cur n; cbn [delete_loop].
  - apply consistent_if; [apply consistent_commit | apply consistent_ret].
  - apply consistent_bind; [apply consistent_dict_get|]. intros pk.
    apply consistent_bind.
    + apply consistent_if; [|apply consistent_ret].
      apply consistent_bind.
      * apply consistent_if; [apply consistent_commit | apply consistent_ret].
      * intros _. apply consistent_bind; [apply consistent_dict_get|].
        intros pk'. apply consistent_ret.
    + intros [[b c] m]. apply consistent_bind; [apply consistent_dict_get|]. intros pk'.
      apply consistent_bind; [apply consistent_dict_get|]. intros rk. apply IH.
Qed.

Lemma consistent_delete_all t : consistent (delete_all_rows_batch t).
Proof.
  apply consistent_bind; [apply consistent_query|]. intros l. apply consistent_delete_loop.
Qed.

Lemma consistent_insert_loop t data : consistent (insert_loop t data).
Proof.
  induction data as [|row data IH]; cbn [insert_loop]; [apply consistent_ret|].
  apply consistent_bind; [apply consistent_make_entity|]. intros e.
  apply consistent_bind; [apply consistent_insert|]. intros _. apply IH.
Qed.

Lemma consistent_write t df truncate : consistent (write_df_to_azure_table t df truncate).
Proof.
  apply consistent_bind; [apply consistent_table_exists|]. intros b.
  apply consistent_bind.
  { apply consistent_if; [apply consistent_create_table | apply consistent_ret]. }
  intros _. apply consistent_bind.
  { apply consistent_if; [apply consistent_delete_all | apply consistent_ret]. }
  intros _. apply consistent_insert_loop.
Qed.

Lemma consistent_rename_table old_name new_name : consistent (rename_table old_name new_name).
Proof.
  apply consistent_bind; [apply consistent_delete_table_if_exists|]. intros _.
  apply consistent_bind; [apply consistent_create_table|]. intros _.
  apply consistent_bind.
  { apply consistent_bind; [apply consistent_query|]. intros l. apply consistent_ret. }
  intros df. apply consistent_bind; [apply consistent_or_key_error|]. intros df'.
  apply consistent_bind; [apply consistent_write|]. intros _.
  apply consistent_delete_table_if_exists.
Qed.

Lemma effects_inserts t rows : effects (map (CInsert t) rows) = map (CInsert t) rows.
Proof.
  induction rows as [|e rows IH]; [done|]. cbn [map]. unfold effects.
  rewrite filter_cons_True by done. f_equal. exact IH.
Qed.

(** The one-by-one writer with [truncate=True] on a table that is there
    and empty: the check, the scan that finds nothing, then the insert
    loop. *)
Lemma write_fresh_calls (t : string) (df : DataFrame) (s : Store) :
  tables s !! t = Some ∅ →
  let loop := insert_loop t (to_dict_records df) s in
  write_df_to_azure_table t df true s
    = (result loop, final loop, [CExists t; CQuery t] ++ calls loop).
Proof.
  intros Ht loop. unfold write_df_to_azure_table.
  rewrite (bind_ok _ _ _ _ _ _ (WriterFacts.table_exists_run t s)).
  rewrite bool_decide_true by eauto. cbn [negb]. rewrite bind_ret.
  assert (Hd : delete_all_rows_batch t s = (Ok tt, s, [CQuery t])).
  { unfold delete_all_rows_batch, Service.query_entities, bind. rewrite Ht.
    by rewrite map_to_list_empty. }
  rewrite (bind_ok _ _ _ _ _ _ Hd). by cbn.
Qed.

Lemma insert_entity_inv (t : string) (e : Entity) (s : Store) r s' l :
  insert_entity t e s = (r, s', l) →
  (∃ err, r = Raise err ∧ s' = s ∧ l = []) ∨
  (∃ tb tb', r = Ok tt ∧ tables s !! t = Some tb ∧
             tables s' = <[t := tb']> (tables s) ∧ l = [CInsert t e]).
Proof.
  unfold insert_entity. intros H.
  destruct (on_table_cases t (CInsert t e) (λ now tb, apply_ops now tb [OpInsert e]) s)
    as [(tb & tb' & now' & Ht & _ & H')|[err H']]; rewrite H' in H; simplify_eq.
  - right. by exists tb, tb'.
  - left. by exists err.
Qed.

(** A completed insert loop has inserted every row, in order, into the
    one table. *)
Lemma insert_loop_inv (t : string) (data : list Entity) : ∀ (s : Store)
    (tb : gmap (string * string) Entity),
  tables s !! t = Some tb →
  result (insert_loop t data s) = Ok tt →
  calls (insert_loop t data s) = map (CInsert t) data ∧
  ∃ tb', tables (final (insert_loop t data s)) = <[t := tb']> (tables s).
Proof.
  induction data as [|row data IH]; intros s tb Ht; cbn [insert_loop].
  - intros _. split; [done|]. exists tb. cbn. by rewrite insert_id.
  - pose proof (make_entity_run row s) as Hrow.
    destruct (row !! "PartitionKey") as [pk|];
      [destruct (row !! "RowKey") as [rk|]|].
    2,3: by rewrite (bind_raise _ _ _ _ _ _ Hrow).
    rewrite (bind_pure _ _ _ _ Hrow).
    destruct (insert_entity t row s) as [[r s1] l1] eqn:Hins.
    pose proof Hins as Hins'.
    apply insert_entity_inv in Hins
      as [(err & -> & _)|(tb0 & tb1 & -> & _ & Ht1 & ->)].
    { by rewrite (bind_raise _ _ _ _ _ _ Hins'). }
    rewrite (bind_ok _ _ _ _ _ _ Hins'). cbn [result final calls fst snd].
    intros Hok.
    destruct (IH s1 tb1) as (H1 & tb' & H2); [by rewrite Ht1, lookup_insert_eq | done |].
    split; [by rewrite H1|]. exists tb'. rewrite H2, Ht1. apply insert_insert_eq.
Qed.

Lemma drop_timestamp_inv entities df :
  drop_column (from_records entities) "Timestamp" = Some df →
  to_dict_records df = copied_rows entities ∧ entities ≠ [].
Proof.
  unfold drop_column. case_decide as Hin; [|done]. intros [= <-].
  split; [done|]. intros ->. by apply elem_of_nil in Hin.
Qed.

End StepFacts.

(** C9. [rename_table] runs its four steps in order: delete the
    destination if it exists, create the destination, copy the
    entities, delete the source; each step starts in the store the
    previous one left, the first step that raises ends the run in the
    store as it is then, and no later step runs.  The store in which the
    run ends, completed or not, is the one that its completed calls
    produce from the initial store: nothing is rolled back.  A completed
    run has changed the store by exactly these calls, in this order: the
    delete of the destination if it existed, its creation, one insert
    per scanned entity, the delete of the source. *)
Theorem rename_table_in_order (old_name new_name : string) (s : Store) :
  let r := rename_table old_name new_name s in
  runs_in_order (rename_steps old_name new_name) s r ∧
  final r = replay (calls r) s ∧
  (result r = Ok tt →
     ∃ tb, tables s !! old_name = Some tb ∧
       effects (calls r) =
         (if bool_decide (is_Some (tables s !! new_name))
          then [CDeleteTable new_name] else []) ++
         [CCreateTable new_name] ++
         map (CInsert new_name) (copied_rows (map snd (map_to_list tb))) ++
         [CDeleteTable old_name]).
Proof.
  intros r. split; [|split].
  - unfold r. rewrite StepFacts.rename_table_steps_eq. unfold rename_steps.
    apply StepFacts.runs_bind. intros s1.
    apply StepFacts.runs_bind. intros s2.
    apply StepFacts.runs_bind. intros s3.
    apply StepFacts.runs_last.
  - apply StepFacts.consistent_rename_table.
  - unfold r, rename_table.
    destruct (RenameFacts.fresh_destination new_name
      (bind (query_entities old_name) (λ entities,
         bind (or_key_error "Timestamp" (drop_column entities "Timestamp")) (λ entities0,
           bind (write_df_to_azure_table new_name entities0 true) (λ _,
             delete_table_if_exists old_name)))) s) as (l0 & -> & He0 & _).
    set (s2 := {| tables := <[new_name := ∅]> (tables s); clock := clock s |}).
    cbn [result calls fst snd].
    assert (Hnew2 : tables s2 !! new_name = Some ∅) by apply lookup_insert_eq.
    destruct (tables s2 !! old_name) as [tb|] eqn:Hold2.
    2:{ unfold query_entities, Service.query_entities, bind. by rewrite Hold2. }
    assert (Hq : query_entities old_name s2
                 = (Ok (from_records (map snd (map_to_list tb))), s2, [CQuery old_name])).
    { unfold query_entities, Service.query_entities, bind, ret. by rewrite Hold2. }
    rewrite (RunFacts.bind_ok _ _ _ _ _ _ Hq). cbn [result calls fst snd].
    destruct (drop_column (from_records (map snd (map_to_list tb))) "Timestamp")
      as [df|] eqn:Hdrop; [|done].
    apply StepFacts.drop_timestamp_inv in Hdrop as [Hrows Hne].
    cbn [or_key_error]. rewrite RunFacts.bind_ret.
    assert (Hnames : old_name ≠ new_name).
    { intros ->. rewrite Hnew2 in Hold2. injection Hold2 as <-.
      by rewrite map_to_list_empty in Hne. }
    assert (Hold : tables s !! old_name = Some tb).
    { unfold s2 in Hold2. simpl in Hold2. by rewrite lookup_insert_ne in Hold2. }
    pose proof (StepFacts.write_fresh_calls new_name df s2 Hnew2) as Hw.
    cbn zeta in Hw. rewrite Hrows in Hw.
    destruct (result (insert_loop new_name (copied_rows (map snd (map_to_list tb))) s2))
      as [[]|err] eqn:Hres.
    2:{ by rewrite (RunFacts.bind_raise _ _ _ _ _ _ Hw). }
    destruct (StepFacts.insert_loop_inv new_name _ s2 ∅ Hnew2 Hres) as (Hcalls & tb' & Hfin).
    rewrite Hcalls in Hw.
    rewrite (RunFacts.bind_ok _ _ _ _ _ _ Hw). cbn [result calls fst snd].
    set (s3 := final (insert_loop new_name (copied_rows (map snd (map_to_list tb))) s2)) in *.
    destruct (RenameFacts.delete_table_if_exists_run old_name s3) as (l2 & Hdel & He2 & _).
    rewrite Hdel. cbn [result calls fst snd]. intros _.
    exists tb. split; [done|].
    rewrite !RenameFacts.effects_app, He0, He2, StepFacts.effects_inserts.
    rewrite Hfin, lookup_insert_ne, Hold2 by done.
    rewrite (bool_decide_true (is_Some (Some tb))) by eauto.
    change (effects [CQuery old_name]) with (@nil Call).
    change (effects [CExists new_name; CQuery new_name]) with (@nil Call).
    cbn [app]. by rewrite <- !(assoc_L (++)).
Qed.

Lemma rename_table_in_order_witness :
  let s := store_of "T" two_partitions in
  runs_in_order (rename_steps "T" "T2") s (rename_table "T" "T2" s) ∧
  final (rename_table "T" "T2" s) = replay (calls (rename_table "T" "T2" s)) s.
Proof.
  intros s.
  destruct (rename_table_in_order "T" "T2" s) as (H1 & H2 & _).
  split; [exact H1 | exact H2].
Defined.

(** ** Batch grouping *)


